(** * YouTube analytics loader: a shallow embedding and its properties

    The development follows the two source files of the loader:
    the analytics script ([assertEnv], [exchangeRefreshToken],
    [fetchAnalytics], [transformRows], [fetchVideoMetadata], [main]) and
    [utils.js] ([ensureDir], [standardize], [saveStandardJson]).

    JavaScript values are an inductive type, numbers are binary64 floats
    (Rocq's primitive floats), exceptions and [process.exit] are outcomes
    of a small trace monad, and the remote endpoints, the environment and
    the clock are fields of a [world] record. *)

From Stdlib Require Import PrimFloat FloatOps.
From stdpp Require Import gmap strings list pretty.
From Equations Require Import Equations.

Set Default Proof Using "Type*".
#[local] Set Warnings "-register-all".

(** ** JavaScript values *)

(** The values the program handles: what [response.json()] can return,
    plus [undefined] (a missing property or an index out of range).
    Numbers are binary64 floats, strings are sequences of one-byte
    characters. Object properties are kept in insertion order, each key
    once; a lookup takes the first entry with the key. *)
Inductive value : Type :=
| VUndefined
| VNull
| VBool (b : bool)
| VNum (n : float)
| VStr (s : string)
| VArr (items : list value)
| VObj (props : list (string * value)).

Inductive error : Type :=
| TypeError
| SyntaxError
| NetworkError
| FsError.

(** The completion of a pure piece of JavaScript: a value or a thrown
    exception. *)
Inductive completion (A : Type) : Type :=
| Normal (a : A)
| Thrown (e : error).
Arguments Normal {A} a.
Arguments Thrown {A} e.

#[global] Instance completion_ret : MRet completion := λ A a, Normal a.
#[global] Instance completion_bind : MBind completion := λ A B f c,
  match c with
  | Normal a => f a
  | Thrown e => Thrown e
  end.

Fixpoint mapC {A B : Type} (f : A → completion B) (l : list A)
  : completion (list B) :=
  match l with
  | [] => Normal []
  | x :: rest => y ← f x; ys ← mapC f rest; Normal (y :: ys)
  end.

(** The two number/string conversions of the language runtime that the
    program relies on through [Number(...)], [String(...)] and template
    literals: StringToNumber and Number::toString of ECMAScript. *)
Class NumberOps : Type := {
  string_to_number : string → float;
  number_to_string : float → string
}.

Section Coercions.
Context `{NumberOps}.

(** ToBoolean: what [if (v)], [!v], [v && ...] and [filter(Boolean)] test. *)
Definition truthy (v : value) : bool :=
  match v with
  | VUndefined | VNull => false
  | VBool b => b
  | VNum n => negb (PrimFloat.is_zero n || PrimFloat.is_nan n)
  | VStr s => negb (bool_decide (s = ""))
  | VArr _ | VObj _ => true
  end.

(** [v ?? d] *)
Definition nullish (v : value) : bool :=
  match v with
  | VUndefined | VNull => true
  | _ => false
  end.

Definition coalesce (v d : value) : value := if nullish v then d else v.

(** A parameter default [x = d] applies to [undefined] only. *)
Definition default_param (v d : value) : value :=
  match v with
  | VUndefined => d
  | _ => v
  end.

Fixpoint own_property (key : string) (props : list (string * value))
  : option value :=
  match props with
  | [] => None
  | (k, v) :: rest => if decide (k = key) then Some v else own_property key rest
  end.

(** [v.key] for the property names the program reads (columnHeaders, rows,
    name, items, id, snippet, status, title, access_token, ...): none of
    them is defined on a built-in prototype, so only an object's own
    properties can answer; reading a property of [null] or [undefined]
    throws. *)
Definition get_prop (v : value) (key : string) : completion value :=
  match v with
  | VUndefined | VNull => Thrown TypeError
  | VObj props => Normal (default VUndefined (own_property key props))
  | _ => Normal VUndefined
  end.

(** [v?.key] *)
Definition get_prop_opt (v : value) (key : string) : value :=
  match v with
  | VObj props => default VUndefined (own_property key props)
  | _ => VUndefined
  end.

(** [row[idx]] for an integer index: an array element, a character of a
    string, the property of an object named by the decimal index;
    [undefined] when there is none. *)
Definition get_index (row : value) (idx : nat) : completion value :=
  match row with
  | VUndefined | VNull => Thrown TypeError
  | VArr items => Normal (default VUndefined (items !! idx))
  | VStr s =>
      Normal (match String.get idx s with
              | Some c => VStr (String c EmptyString)
              | None => VUndefined
              end)
  | VObj props => Normal (default VUndefined (own_property (pretty idx) props))
  | VBool _ | VNum _ => Normal VUndefined
  end.

Definition is_array (v : value) : bool :=
  match v with
  | VArr _ => true
  | _ => false
  end.

(** ToString. An array is joined with commas, [null] and [undefined]
    elements giving the empty string. A plain object answers through
    [Object.prototype.toString]; when it has an own property named
    toString (parsed JSON never holds a function) no conversion method is
    left and the conversion throws. *)
Fixpoint ToString (v : value) : completion string :=
  match v with
  | VUndefined => Normal "undefined"
  | VNull => Normal "null"
  | VBool b => Normal (if b then "true" else "false")
  | VNum n => Normal (number_to_string n)
  | VStr s => Normal s
  | VArr items =>
      (fix join (l : list value) : completion string :=
         match l with
         | [] => Normal ""
         | x :: rest =>
             s ← (if nullish x then Normal "" else ToString x);
             match rest with
             | [] => Normal s
             | _ :: _ => r ← join rest; Normal (s +:+ "," +:+ r)
             end
         end) items
  | VObj props =>
      match own_property "toString" props with
      | Some _ => Thrown TypeError
      | None => Normal "[object Object]"
      end
  end.

(** ToNumber, as [Number(v)] computes it. *)
Definition ToNumber (v : value) : completion float :=
  match v with
  | VUndefined => Normal PrimFloat.nan
  | VNull => Normal 0%float
  | VBool b => Normal (if b then 1%float else 0%float)
  | VNum n => Normal n
  | VStr s => Normal (string_to_number s)
  | VArr _ | VObj _ => s ← ToString v; Normal (string_to_number s)
  end.

(** [array.join(',')] on strings. *)
Fixpoint join_comma (l : list string) : string :=
  match l with
  | [] => ""
  | [s] => s
  | s :: rest => s +:+ "," +:+ join_comma rest
  end.

End Coercions.

(** ** The metrics transform ([transformRows]) *)

Record Metrics : Type := {
  views : float;
  watch_time_minutes : float;
  watch_time_seconds : float;
  average_view_duration_sec : float;
  likes : float;
  comments : float;
  shares : float
}.

Record MetricsRow : Type := {
  videoId : string;
  metrics : Metrics
}.

Section Transform.
Context `{NumberOps}.

(** The [forEach] that fills [headerIndex]. The lookups are all by string
    literals and a [Map] compares keys without coercion, so a truthy name
    that is not a string is stored under a key no lookup reaches: the map
    is modelled with its string keys. A later header of the same name
    overwrites the index. *)
Fixpoint fill_headerIndex (headers : list value) (index : nat)
  (headerIndex : gmap string nat) : gmap string nat :=
  match headers with
  | [] => headerIndex
  | header :: rest =>
      let name := get_prop_opt header "name" in
      fill_headerIndex rest (S index)
        (if truthy name
         then match name with
              | VStr s => <[s := index]> headerIndex
              | _ => headerIndex
              end
         else headerIndex)
  end.

(** [columnHeaders.forEach(...)]: only an array has the method. *)
Definition build_headerIndex (columnHeaders : value)
  : completion (gmap string nat) :=
  match columnHeaders with
  | VArr headers => Normal (fill_headerIndex headers 0 ∅)
  | _ => Thrown TypeError
  end.

Definition getNumber (headerIndex : gmap string nat) (row : value)
  (key : string) : completion float :=
  match headerIndex !! key with
  | None => Normal 0%float
  | Some idx =>
      value ← get_index row idx;
      num ← ToNumber value;
      Normal (if PrimFloat.is_nan num then 0%float else num)
  end.

Definition getString (headerIndex : gmap string nat) (row : value)
  (key : string) : completion string :=
  match headerIndex !! key with
  | None => Normal ""
  | Some idx =>
      value ← get_index row idx;
      match value with
      | VStr s => Normal s
      | _ => ToString (coalesce value (VStr ""))
      end
  end.

(** The callback of [rows.map]. *)
Definition transformRow (headerIndex : gmap string nat) (row : value)
  : completion MetricsRow :=
  videoId ← getString headerIndex row "video";
  watchTimeMinutes ← getNumber headerIndex row "estimatedMinutesWatched";
  averageViewDuration ← getNumber headerIndex row "averageViewDuration";
  views ← getNumber headerIndex row "views";
  likes ← getNumber headerIndex row "likes";
  comments ← getNumber headerIndex row "comments";
  shares ← getNumber headerIndex row "shares";
  Normal {| videoId := videoId;
            metrics := {| views := views;
                          watch_time_minutes := watchTimeMinutes;
                          watch_time_seconds := watchTimeMinutes * 60;
                          average_view_duration_sec := averageViewDuration;
                          likes := likes;
                          comments := comments;
                          shares := shares |} |}.

Definition transformRows (columnHeaders rows : value)
  : completion (list MetricsRow) :=
  let columnHeaders := default_param columnHeaders (VArr []) in
  let rows := default_param rows (VArr []) in
  match rows with
  | VArr ((_ :: _) as rows) =>
      headerIndex ← build_headerIndex columnHeaders;
      mapC (transformRow headerIndex) rows
  | _ => Normal []
  end.

End Transform.

(** ** Calendar dates (date-fns [subDays] and [format])

    A [Date] is used for its local calendar day only, kept as the number
    of days since 1970-01-01. [subDays] moves the calendar day; [format]
    with the pattern yyyy-MM-dd prints the year padded to four digits,
    the month and the day of the month padded to two. *)

Definition subDays (date : Z) (amount : Z) : Z := (date - amount)%Z.

(** Year, month (1..12) and day of the month of a day number in the
    proleptic Gregorian calendar. *)
Definition civil_from_days (days : Z) : Z * Z * Z :=
  let z := (days + 719468)%Z in
  let era := (z `div` 146097)%Z in
  let doe := (z - era * 146097)%Z in
  let yoe :=
    ((doe - doe `div` 1460 + doe `div` 36524 - doe `div` 146096) `div` 365)%Z in
  let doy := (doe - (365 * yoe + yoe `div` 4 - yoe `div` 100))%Z in
  let mp := ((5 * doy + 2) `div` 153)%Z in
  let d := (doy - (153 * mp + 2) `div` 5 + 1)%Z in
  let m := (if decide (mp < 10)%Z then mp + 3 else mp - 9)%Z in
  let y := (yoe + era * 400 + (if decide (m ≤ 2)%Z then 1 else 0))%Z in
  (y, m, d).

Fixpoint pad_zeros (n : nat) (s : string) : string :=
  match n with
  | O => s
  | S n' => pad_zeros n' ("0" +:+ s)
  end.

Definition addLeadingZeros (number : Z) (targetLength : nat) : string :=
  let sign := if decide (number < 0)%Z then "-" else "" in
  let output := pretty (Z.abs number) in
  sign +:+ pad_zeros (targetLength - String.length output) output.

Definition format_yyyy_MM_dd (date : Z) : string :=
  let '(signedYear, month, day) := civil_from_days date in
  let year := (if decide (0 < signedYear)%Z then signedYear else 1 - signedYear)%Z in
  addLeadingZeros year 4 +:+ "-" +:+ addLeadingZeros month 2
    +:+ "-" +:+ addLeadingZeros day 2.

(** The report window of [fetchAnalytics]: [startDate] and [endDate]. *)
Definition analytics_window (today : Z) : Z * Z := (subDays today 28, today).

(** The calendar days a report from [startDate] to [endDate] covers; the
    endpoint takes both dates as inclusive. *)
Definition window_days (window : Z * Z) : list Z :=
  seqZ (fst window) (snd window - fst window + 1).

(** ** The outside world, and the effects of the program *)

(** An HTTP request as the program issues it. The analytics request also
    carries the constant parameters ids, dimensions, metrics, sort and
    maxResults; the metadata request carries part and the chunk of ids,
    sent joined with commas ([id_param]). *)
Inductive request : Type :=
| TokenRequest (client_id client_secret refresh_token : option string)
| AnalyticsRequest (authorization : string) (startDate endDate : string)
| MetadataRequest (authorization : string) (chunk : list string).

Record response : Type := {
  ok : bool;
  status : nat;
  text : string;
  json : completion value
}.

(** What a run depends on: the environment variables, the working
    directory, the local calendar day that [new Date()] gives in
    [fetchAnalytics] and in [saveStandardJson], the remote endpoints (a
    rejected [fetch] throws) and the file system. *)
Record world : Type := {
  env : gmap string string;
  cwd : string;
  today_at_fetch : Z;
  today_at_save : Z;
  fetch : request → completion response;
  ensureFsDir : string → completion unit;
  writeJson : string → list value → completion unit
}.

Inductive event : Type :=
| EFetch (req : request)
| EEnsureDir (path : string)
| EWriteJson (path : string) (records : list value).

(** How a computation ends: it returns, the process exits with a code
    ([process.exit]), or an exception propagates. *)
Inductive outcome (A : Type) : Type :=
| Ret (a : A)
| Exit (code : Z)
| Throw (e : error).
Arguments Ret {A} a.
Arguments Exit {A} code.
Arguments Throw {A} e.

(** A computation extends the trace of events performed so far. Console
    output is left out of the trace. *)
Definition M (A : Type) : Type := list event → list event * outcome A.

#[global] Instance M_ret : MRet M := λ A a tr, (tr, Ret a).
#[global] Instance M_bind : MBind M := λ A B f m tr,
  match m tr with
  | (tr', Ret a) => f a tr'
  | (tr', Exit code) => (tr', Exit code)
  | (tr', Throw e) => (tr', Throw e)
  end.

Definition exit {A : Type} (code : Z) : M A := λ tr, (tr, Exit code).

Definition lift {A : Type} (c : completion A) : M A := λ tr,
  match c with
  | Normal a => (tr, Ret a)
  | Thrown e => (tr, Throw e)
  end.

Definition perform {A : Type} (ev : event) (c : completion A) : M A := λ tr,
  lift c (tr ++ [ev]).

(** [try { body } catch (error) { handler }]: an exit is not caught. *)
Definition try_catch {A : Type} (body : M A) (handler : error → M A) : M A :=
  λ tr,
  match body tr with
  | (tr', Throw e) => handler e tr'
  | other => other
  end.

Definition do_fetch (w : world) (req : request) : M response :=
  perform (EFetch req) (fetch w req).

(** ** utils.js *)

Definition ensureDir (w : world) (dirPath : string) : M unit :=
  perform (EEnsureDir dirPath) (ensureFsDir w dirPath).

(** A destructured parameter [{ key = d }]. *)
Definition destructure (input : value) (key : string) (d : value) : value :=
  default_param (get_prop_opt input key) d.

(** Destructuring [null] or [undefined] throws; any other value is read
    property by property. *)
Definition standardize (input : value) : completion value :=
  if nullish input then Thrown TypeError
  else
    let platform := destructure input "platform" VUndefined in
    let post_id := destructure input "post_id" VUndefined in
    let permalink := destructure input "permalink" VUndefined in
    let created_at := destructure input "created_at" VNull in
    let text := destructure input "text" VNull in
    let hashtags := destructure input "hashtags" (VArr []) in
    let metrics := destructure input "metrics" (VObj []) in
    let extra := destructure input "extra" (VObj []) in
    Normal (VObj [("platform", platform);
                  ("post_id", post_id);
                  ("permalink", permalink);
                  ("created_at", created_at);
                  ("text", text);
                  ("hashtags", hashtags);
                  ("metrics", metrics);
                  ("extra", extra)]).

(** [path.join] on the relative segments used here. *)
Definition path_join (segments : list string) : string :=
  foldr (λ seg acc, if decide (acc = "") then seg else seg +:+ "/" +:+ acc)
        "" segments.

Definition saveStandardJson (w : world) (platform : string)
  (records : list value) : M string :=
  let analyticsDir := path_join [cwd w; "data"; "analytics"] in
  _ ← ensureDir w analyticsDir;
  let stamp := format_yyyy_MM_dd (today_at_save w) in
  let filePath :=
    path_join [analyticsDir; stamp +:+ "-" +:+ platform +:+ "-analytics.json"] in
  _ ← perform (EWriteJson filePath records) (writeJson w filePath records);
  mret filePath.

(** ** The analytics script *)

Definition REQUIRED_ENV : list string :=
  ["YT_CLIENT_ID"; "YT_CLIENT_SECRET"; "YT_REFRESH_TOKEN"].

(** [!process.env[key]]: unset or empty. *)
Definition env_missing (w : world) (key : string) : bool :=
  match env w !! key with
  | None => true
  | Some s => bool_decide (s = "")
  end.

Definition assertEnv (w : world) : M unit :=
  let missing := filter (λ key, env_missing w key) REQUIRED_ENV in
  if decide (length missing = 0) then mret () else exit 1.

(** The form-encoded body of the token request: the three credentials of
    the environment (and the constant grant type). *)
Definition token_request (w : world) : request :=
  TokenRequest (env w !! "YT_CLIENT_ID")
               (env w !! "YT_CLIENT_SECRET")
               (env w !! "YT_REFRESH_TOKEN").

Definition exchangeRefreshToken (w : world) : M value :=
  response ← do_fetch w (token_request w);
  if negb (ok response) then exit 1
  else
    data ← lift (json response);
    access_token ← lift (get_prop data "access_token");
    if negb (truthy access_token) then exit 1
    else mret access_token.

Definition id_param (chunk : list string) : string := join_comma chunk.

Record VideoMetadata : Type := {
  title : value;
  description : value;
  tags : value;
  publishedAt : value;
  privacyStatus : value
}.

Definition metrics_value (m : Metrics) : value :=
  VObj [("views", VNum (views m));
        ("watch_time_minutes", VNum (watch_time_minutes m));
        ("watch_time_seconds", VNum (watch_time_seconds m));
        ("average_view_duration_sec", VNum (average_view_duration_sec m));
        ("likes", VNum (likes m));
        ("comments", VNum (comments m));
        ("shares", VNum (shares m))].

Section Script.
Context `{NumberOps}.

(** The header [Authorization: `Bearer ${accessToken}`]. *)
Definition bearer (accessToken : value) : completion string :=
  s ← ToString accessToken; Normal ("Bearer " +:+ s).

Definition fetchAnalytics (w : world) (accessToken : value) : M value :=
  let today := today_at_fetch w in
  let startDate := format_yyyy_MM_dd (fst (analytics_window today)) in
  let endDate := format_yyyy_MM_dd (snd (analytics_window today)) in
  authorization ← lift (bearer accessToken);
  response ← do_fetch w (AnalyticsRequest authorization startDate endDate);
  if negb (ok response) then exit 1
  else
    payload ← lift (json response);
    mret payload.

(** The callback of [payload.items.forEach]. The map is read with string
    keys only (the [videoId] of a metrics row), so an entry stored under a
    truthy id that is not a string is never found and is not recorded. *)
Definition add_item (result : gmap string VideoMetadata) (item : value)
  : gmap string VideoMetadata :=
  let id := get_prop_opt item "id" in
  if negb (truthy id) then result
  else
    let snippet := coalesce (get_prop_opt item "snippet") (VObj []) in
    let status := coalesce (get_prop_opt item "status") (VObj []) in
    let tags := get_prop_opt snippet "tags" in
    let meta :=
      {| title := coalesce (get_prop_opt snippet "title") VNull;
         description := coalesce (get_prop_opt snippet "description") VNull;
         tags := if is_array tags then tags else VArr [];
         publishedAt := coalesce (get_prop_opt snippet "publishedAt") VNull;
         privacyStatus := coalesce (get_prop_opt status "privacyStatus") VNull |} in
    match id with
    | VStr s => <[s := meta]> result
    | _ => result
    end.

(** [payload.items?.forEach(...)] *)
Definition add_items (result : gmap string VideoMetadata) (payload : value)
  : completion (gmap string VideoMetadata) :=
  items ← get_prop payload "items";
  match items with
  | VUndefined | VNull => Normal result
  | VArr l => Normal (foldl add_item result l)
  | _ => Thrown TypeError
  end.

Definition chunkSize : nat := 50.

(** [videoIds.slice(i, i + chunkSize)] *)
Definition slice {A : Type} (i j : nat) (l : list A) : list A :=
  take (j - i) (drop i l).

(** One turn of the loop of [fetchVideoMetadata]. *)
Definition fetchMetadataChunk (w : world) (accessToken : value)
  (chunk : list string) (result : gmap string VideoMetadata)
  : M (gmap string VideoMetadata) :=
  authorization ← lift (bearer accessToken);
  response ← do_fetch w (MetadataRequest authorization chunk);
  if negb (ok response) then exit 1
  else
    payload ← lift (json response);
    lift (add_items result payload).

Section MetadataLoop.
Variables (w : world) (accessToken : value) (videoIds : list string).

(** [for (let i = 0; i < videoIds.length; i += chunkSize) { ... }] *)
Equations? metadata_loop (i : nat) (result : gmap string VideoMetadata)
  (tr : list event) : list event * outcome (gmap string VideoMetadata)
  by wf (length videoIds - i) lt :=
  metadata_loop i result tr with decide (i < length videoIds) => {
    | right _ => (tr, Ret result)
    | left _
        with fetchMetadataChunk w accessToken
               (slice i (i + chunkSize) videoIds) result tr => {
        | (tr', Ret result') => metadata_loop (i + chunkSize) result' tr'
        | (tr', Exit code) => (tr', Exit code)
        | (tr', Throw e) => (tr', Throw e) } }.
Proof. unfold chunkSize. lia. Qed.

End MetadataLoop.

Definition fetchVideoMetadata (w : world) (accessToken : value)
  (videoIds : list string) : M (gmap string VideoMetadata) :=
  if decide (length videoIds = 0) then mret ∅
  else metadata_loop w accessToken videoIds 0 ∅.

Definition is_public (v : value) : bool :=
  match v with
  | VStr s => bool_decide (s = "public")
  | _ => false
  end.

(** [meta?.field] *)
Definition meta_field (meta : option VideoMetadata)
  (field : VideoMetadata → value) : value :=
  match meta with
  | Some m => field m
  | None => VUndefined
  end.

(** The object literal that [main] passes to [standardize]. *)
Definition standard_input (meta : option VideoMetadata) (entry : MetricsRow)
  : value :=
  VObj [("platform", VStr "youtube");
        ("post_id", VStr (videoId entry));
        ("permalink",
         VStr ("https://www.youtube.com/watch?v=" +:+ videoId entry));
        ("created_at", coalesce (meta_field meta publishedAt) VNull);
        ("text", coalesce (meta_field meta description) VNull);
        ("hashtags", coalesce (meta_field meta tags) (VArr []));
        ("metrics", metrics_value (metrics entry));
        ("extra",
         if truthy (meta_field meta title)
         then VObj [("title", meta_field meta title)]
         else VObj [])].

(** The callback of [rawRecords.map] in [main]: [null] for a video that is
    filtered out, the standard record otherwise. *)
Definition normalizeRow (metadataMap : gmap string VideoMetadata)
  (entry : MetricsRow) : completion value :=
  let meta := metadataMap !! videoId entry in
  if truthy (meta_field meta privacyStatus)
     && negb (is_public (meta_field meta privacyStatus))
  then Normal VNull
  else standardize (standard_input meta entry).

(** [rawRecords.map(...).filter(Boolean)] *)
Definition normalize (rawRecords : list MetricsRow)
  (metadataMap : gmap string VideoMetadata) : completion (list value) :=
  mapped ← mapC (normalizeRow metadataMap) rawRecords;
  Normal (filter (λ v, truthy v) mapped).

(** [rawRecords.map((entry) => entry.videoId).filter(Boolean)] *)
Definition collect_videoIds (rawRecords : list MetricsRow) : list string :=
  filter (λ id, truthy (VStr id)) (videoId <$> rawRecords).

Definition main (w : world) : M unit :=
  try_catch
    (_ ← assertEnv w;
     _ ← ensureDir w "data/analytics";
     accessToken ← exchangeRefreshToken w;
     analyticsPayload ← fetchAnalytics w accessToken;
     columnHeaders ← lift (get_prop analyticsPayload "columnHeaders");
     rows ← lift (get_prop analyticsPayload "rows");
     rawRecords ← lift (transformRows columnHeaders rows);
     let videoIds := collect_videoIds rawRecords in
     metadataMap ← fetchVideoMetadata w accessToken videoIds;
     records ← lift (normalize rawRecords metadataMap);
     filePath ← saveStandardJson w "youtube" records;
     mret ())
    (λ error, exit 1).

(** A run of the script from the empty trace: the events performed and
    the exit code of the process. *)
Definition run (w : world) : list event * Z :=
  match main w [] with
  | (tr, Ret _) => (tr, 0%Z)
  | (tr, Exit code) => (tr, code)
  | (tr, Throw _) => (tr, 1%Z)
  end.

End Script.

(** ** Fixtures and auxiliary notions used by the statements *)

(** The table of the scenario: one header object per column name. *)
Definition header (name : string) : value := VObj [("name", VStr name)].

Definition scenario_headers : value :=
  VArr (header <$> ["video"; "views"; "estimatedMinutesWatched";
                    "averageViewDuration"; "likes"; "comments"; "shares"]).

Definition scenario_rows : value :=
  VArr [VArr [VStr "abc123"; VNum 100; VNum 50; VNum 30; VNum 5; VNum 2; VNum 1]].

Definition scenario_record : MetricsRow :=
  {| videoId := "abc123";
     metrics := {| views := 100;
                   watch_time_minutes := 50;
                   watch_time_seconds := 3000;
                   average_view_duration_sec := 30;
                   likes := 5;
                   comments := 2;
                   shares := 1 |} |}.

(** The row every lookup of which fell back to its default. *)
Definition default_row : MetricsRow :=
  {| videoId := "";
     metrics := {| views := 0;
                   watch_time_minutes := 0;
                   watch_time_seconds := 0;
                   average_view_duration_sec := 0;
                   likes := 0;
                   comments := 0;
                   shares := 0 |} |}.

(** The numeric metrics of a row: the column each is read from
    (lines 121-133 of the script) and the field it lands in. *)
Definition numeric_metrics : list (string * (Metrics → float)) :=
  [("views", views);
   ("estimatedMinutesWatched", watch_time_minutes);
   ("averageViewDuration", average_view_duration_sec);
   ("likes", likes);
   ("comments", comments);
   ("shares", shares)].

(** Cells whose conversions cannot throw: everything but arrays and
    objects. *)
Definition primitive (v : value) : bool :=
  match v with
  | VArr _ | VObj _ => false
  | _ => true
  end.

(** A row that is an array of primitive cells. *)
Definition plain_row (row : value) : Prop :=
  ∃ cells, row = VArr cells ∧ Forall (λ c, primitive c = true) cells.

(** A runtime to run the model on concrete tables. Its conversions are
    those of the language on the integers: a string of decimal digits is
    read as the nearest number, an integral number is printed by its
    digits. Every other string is taken as not numeric and every other
    finite number is printed as its integer part, which is not what the
    language does; the properties below hold for every runtime and use
    this one for examples only. *)
Definition digit_of (c : Ascii.ascii) : option Z :=
  let n := Z.of_nat (Ascii.nat_of_ascii c) in
  if decide (48 ≤ n ≤ 57)%Z then Some (n - 48)%Z else None.

Fixpoint digits_value (acc : Z) (s : string) : option Z :=
  match s with
  | EmptyString => Some acc
  | String c rest => d ← digit_of c; digits_value (10 * acc + d) rest
  end.

Definition fixture_string_to_number (s : string) : float :=
  match digits_value 0 s with
  | Some z => SF2Prim (SpecFloat.binary_normalize prec emax z 0 false)
  | None => PrimFloat.nan
  end.

Definition fixture_number_to_string (x : float) : string :=
  match Prim2SF x with
  | SpecFloat.S754_zero _ => "0"
  | SpecFloat.S754_nan => "NaN"
  | SpecFloat.S754_infinity s => if s then "-Infinity" else "Infinity"
  | SpecFloat.S754_finite s m e =>
      (if s then "-" else "")
      +:+ pretty (if decide (0 ≤ e)%Z then Z.pos m * 2 ^ e
                  else Z.pos m `div` 2 ^ (- e))%Z
  end.

Definition fixture_ops : NumberOps :=
  {| string_to_number := fixture_string_to_number;
     number_to_string := fixture_number_to_string |}.

(** The fields of a standard record, and the default of each in the
    parameter list of [standardize] (none for the first three: an omitted
    one stays [undefined]). *)
Definition standard_keys : list string :=
  ["platform"; "post_id"; "permalink"; "created_at"; "text"; "hashtags";
   "metrics"; "extra"].

Definition field_default (key : string) : value :=
  if decide (key = "created_at") then VNull
  else if decide (key = "text") then VNull
  else if decide (key = "hashtags") then VArr []
  else if decide (key = "metrics") then VObj []
  else if decide (key = "extra") then VObj []
  else VUndefined.

(** 2024-01-29 as a day number. *)
Definition day_2024_01_29 : Z := 19751.

(** A successful response with a JSON body. *)
Definition json_response (body : value) : response :=
  {| ok := true; status := 200; text := ""; json := Normal body |}.

(** The analytics table of the example run: the row of the scenario, a
    row without a video id, a private video and a video the metadata
    endpoint does not know. *)
Definition example_rows : value :=
  VArr [VArr [VStr "abc123"; VNum 100; VNum 50; VNum 30; VNum 5; VNum 2; VNum 1];
        VArr [VNull; VNum 7];
        VArr [VStr "prv"; VNum 3];
        VArr [VStr "gone"; VNum 1]].

Definition example_items : value :=
  VArr [VObj [("id", VStr "abc123");
              ("snippet", VObj [("title", VStr "A title");
                                ("description", VStr "A description");
                                ("tags", VArr [VStr "t1"; VStr "t2"]);
                                ("publishedAt", VStr "2023-12-01T10:00:00Z")]);
              ("status", VObj [("privacyStatus", VStr "public")])];
        VObj [("id", VStr "prv");
              ("status", VObj [("privacyStatus", VStr "private")])]].

Definition example_fetch (req : request) : completion response :=
  match req with
  | TokenRequest _ _ _ =>
      Normal (json_response (VObj [("access_token", VStr "tok")]))
  | AnalyticsRequest _ _ _ =>
      Normal (json_response (VObj [("columnHeaders", scenario_headers);
                                   ("rows", example_rows)]))
  | MetadataRequest _ _ =>
      Normal (json_response (VObj [("items", example_items)]))
  end.

Definition example_world : world :=
  {| env := list_to_map [("YT_CLIENT_ID", "id"); ("YT_CLIENT_SECRET", "secret");
                         ("YT_REFRESH_TOKEN", "refresh")];
     cwd := "/repo";
     today_at_fetch := day_2024_01_29;
     today_at_save := day_2024_01_29;
     fetch := example_fetch;
     ensureFsDir := λ _, Normal ();
     writeJson := λ _ _, Normal () |}.

(** The same world with a token endpoint that answers 200 with [{}]. *)
Definition tokenless_world : world :=
  {| env := env example_world;
     cwd := cwd example_world;
     today_at_fetch := today_at_fetch example_world;
     today_at_save := today_at_save example_world;
     fetch := λ req,
       match req with
       | TokenRequest _ _ _ => Normal (json_response (VObj []))
       | _ => example_fetch req
       end;
     ensureFsDir := ensureFsDir example_world;
     writeJson := writeJson example_world |}.

(** The least number of batches of [d] that hold [n] items. *)
Definition ceil_div (n d : nat) : nat :=
  if decide (n `mod` d = 0) then n `div` d else S (n `div` d).

(** A request to the metadata endpoint for at most [chunkSize] ids, taken
    from [ids]. *)
Definition metadata_call (ids : list string) (ev : event) : Prop :=
  ∃ authorization chunk,
    ev = EFetch (MetadataRequest authorization chunk)
    ∧ length chunk ≤ chunkSize ∧ chunk ⊆ ids.

(** The record of a row without metadata: every field that comes from
    the metadata is at its default. *)
Definition default_record (entry : MetricsRow) : value :=
  VObj [("platform", VStr "youtube");
        ("post_id", VStr (videoId entry));
        ("permalink",
         VStr ("https://www.youtube.com/watch?v=" +:+ videoId entry));
        ("created_at", VNull);
        ("text", VNull);
        ("hashtags", VArr []);
        ("metrics", metrics_value (metrics entry));
        ("extra", VObj [])].

(** A metadata response for the video of the scenario whose privacy
    status is the empty string, and the map it leaves. *)
Definition blank_privacy_payload : value :=
  VObj [("items",
         VArr [VObj [("id", VStr "abc123");
                     ("status", VObj [("privacyStatus", VStr "")])]])].

Definition blank_privacy_map : gmap string VideoMetadata :=
  {["abc123" := {| title := VNull; description := VNull; tags := VArr [];
                   publishedAt := VNull; privacyStatus := VStr "" |}]}.

(** The metadata endpoint answers every chunk successfully, with a body
    whose items, if any, are an array. *)
Definition metadata_endpoint_ok `{NumberOps} (w : world) (accessToken : value)
  : Prop :=
  ∃ authorization,
    bearer accessToken = Normal authorization
    ∧ ∀ chunk, ∃ resp payload,
        fetch w (MetadataRequest authorization chunk) = Normal resp
        ∧ ok resp = true ∧ json resp = Normal payload
        ∧ ∀ result, ∃ result', add_items result payload = Normal result'.

(** A hundred and twenty distinct ids. *)
Definition many_ids : list string := pretty <$> seq 0 120.

(** Three transformed rows (the scenario, a private video, a video without
    metadata) and a metadata map that knows the private one. *)
Definition private_row : MetricsRow :=
  {| videoId := "prv"; metrics := metrics default_row |}.

Definition unknown_row : MetricsRow :=
  {| videoId := "gone"; metrics := metrics default_row |}.

Definition private_metadata : VideoMetadata :=
  {| title := VNull; description := VNull; tags := VArr [];
     publishedAt := VNull; privacyStatus := VStr "private" |}.

Definition privacy_rows : list MetricsRow :=
  [scenario_record; private_row; unknown_row].

Definition privacy_map : gmap string VideoMetadata :=
  {["prv" := private_metadata]}.

(** ** Further notions used by the statements *)

(** A header object whose name is the string [key]. *)
Definition header_named (key : string) (h : value) : Prop :=
  get_prop_opt h "name" = VStr key.

(** The stages a run goes through, as facts about the world. *)

Definition env_complete (w : world) : Prop :=
  ∀ key, key ∈ REQUIRED_ENV → env_missing w key = false.

(** The environment is complete and the output directory could be
    created. *)
Definition started (w : world) : Prop :=
  env_complete w ∧ ensureFsDir w "data/analytics" = Normal ().

(** The token endpoint answered successfully with the truthy access token
    [tok]. *)
Definition token_ok (w : world) (tok : value) : Prop :=
  ∃ resp props,
    fetch w (token_request w) = Normal resp ∧ ok resp = true
    ∧ json resp = Normal (VObj props)
    ∧ own_property "access_token" props = Some tok
    ∧ truthy tok = true.

(** The analytics request of a run that holds the token [tok]. *)
Definition analytics_request (w : world) (authorization : string) : request :=
  AnalyticsRequest authorization
    (format_yyyy_MM_dd (today_at_fetch w - 28))
    (format_yyyy_MM_dd (today_at_fetch w)).


(** The analytics endpoint answered successfully with the JSON body
    [payload], from which the rows [raw] were transformed. *)
Definition transformed `{NumberOps} (w : world) (authorization : string)
  (raw : list MetricsRow) : Prop :=
  ∃ resp payload columnHeaders rows,
    fetch w (analytics_request w authorization) = Normal resp
    ∧ ok resp = true ∧ json resp = Normal payload
    ∧ get_prop payload "columnHeaders" = Normal columnHeaders
    ∧ get_prop payload "rows" = Normal rows
    ∧ transformRows columnHeaders rows = Normal raw.

(** The events of a run up to the analytics request. *)
Definition run_head (w : world) (authorization : string) : list event :=
  [EEnsureDir "data/analytics"; EFetch (token_request w);
   EFetch (analytics_request w authorization)].

Definition analyticsDir (w : world) : string :=
  path_join [cwd w; "data"; "analytics"].

(** How far a run got, with its trace and its exit code: the five ways it
    stops before the metadata step, in the metadata step, at the creation
    of the output directory, and at the write. *)
Inductive run_stage `{NumberOps} (w : world) : list event → Z → Prop :=
| StageEnv :
    ¬ env_complete w →
    run_stage w [] 1
| StageMkdir e :
    env_complete w → ensureFsDir w "data/analytics" = Thrown e →
    run_stage w [EEnsureDir "data/analytics"] 1
| StageToken :
    started w → (∀ tok, ¬ token_ok w tok) →
    run_stage w [EEnsureDir "data/analytics"; EFetch (token_request w)] 1
| StageBearer tok e :
    started w → token_ok w tok → bearer tok = Thrown e →
    run_stage w [EEnsureDir "data/analytics"; EFetch (token_request w)] 1
| StageAnalytics tok authorization :
    started w → token_ok w tok → bearer tok = Normal authorization →
    (∀ raw, ¬ transformed w authorization raw) →
    run_stage w (run_head w authorization) 1
| StageMetadata tok authorization raw calls o :
    started w → token_ok w tok → bearer tok = Normal authorization →
    transformed w authorization raw →
    fetchVideoMetadata w tok (collect_videoIds raw) (run_head w authorization)
    = (run_head w authorization ++ calls, o) →
    (∀ m, o ≠ Ret m) →
    run_stage w (run_head w authorization ++ calls) 1
| StageSaveDir tok authorization raw calls m e :
    started w → token_ok w tok → bearer tok = Normal authorization →
    transformed w authorization raw →
    fetchVideoMetadata w tok (collect_videoIds raw) (run_head w authorization)
    = (run_head w authorization ++ calls, Ret m) →
    ensureFsDir w (analyticsDir w) = Thrown e →
    run_stage w (run_head w authorization ++ calls ++ [EEnsureDir (analyticsDir w)]) 1
| StageWrite tok authorization raw calls m records filePath :
    started w → token_ok w tok → bearer tok = Normal authorization →
    transformed w authorization raw →
    fetchVideoMetadata w tok (collect_videoIds raw) (run_head w authorization)
    = (run_head w authorization ++ calls, Ret m) →
    ensureFsDir w (analyticsDir w) = Normal () →
    normalize raw m = Normal records →
    filePath
    = path_join [analyticsDir w;
                 format_yyyy_MM_dd (today_at_save w) +:+ "-youtube-analytics.json"] →
    run_stage w
      (run_head w authorization ++ calls
         ++ [EEnsureDir (analyticsDir w); EWriteJson filePath records])
      (match writeJson w filePath records with
       | Normal _ => 0
       | Thrown _ => 1
       end).


(** The example world without its refresh token. *)
Definition envless_world : world :=
  {| env := list_to_map [("YT_CLIENT_ID", "id"); ("YT_CLIENT_SECRET", "secret");
                         ("YT_REFRESH_TOKEN", "")];
     cwd := cwd example_world;
     today_at_fetch := today_at_fetch example_world;
     today_at_save := today_at_save example_world;
     fetch := example_fetch;
     ensureFsDir := ensureFsDir example_world;
     writeJson := writeJson example_world |}.

(** The metadata of a video as [fetchVideoMetadata] stores it: the tags
    are an array and no field is [undefined]. *)
Definition metadata_wf (meta : VideoMetadata) : Prop :=
  is_array (tags meta) = true
  ∧ title meta ≠ VUndefined ∧ description meta ≠ VUndefined
  ∧ publishedAt meta ≠ VUndefined ∧ privacyStatus meta ≠ VUndefined.

(** The test of [main] that filters a row out. *)
Definition dropped (metadataMap : gmap string VideoMetadata)
  (entry : MetricsRow) : bool :=
  truthy (meta_field (metadataMap !! videoId entry) privacyStatus)
  && negb (is_public (meta_field (metadataMap !! videoId entry) privacyStatus)).

(** ** The authorization helper script

    The second script of the repository obtains the refresh token: either
    from a code given on the command line, or from the redirect of the
    browser to a local server. Its console output is part of its trace,
    since the refresh token is delivered there. *)

Module Helper.

(** The value of a command-line option: the text given for it, or [true]
    for an option that ends the command line without a value. *)
Inductive argval : Type :=
| ArgStr (s : string)
| ArgTrue.

Definition char_of (s : string) : Ascii.ascii :=
  match s with
  | String c _ => c
  | EmptyString => Ascii.zero
  end.

Definition dash : Ascii.ascii := char_of "-".
Definition equals_sign : Ascii.ascii := char_of "=".

(** [arg.split('=')] *)
Fixpoint split_on (sep : Ascii.ascii) (s : string) : list string :=
  match s with
  | EmptyString => [EmptyString]
  | String c rest =>
      if decide (c = sep) then EmptyString :: split_on sep rest
      else match split_on sep rest with
           | piece :: pieces => String c piece :: pieces
           | [] => [String c EmptyString]
           end
  end.

(** A text without the character [=]. *)
Fixpoint no_equals (s : string) : bool :=
  match s with
  | EmptyString => true
  | String c rest => negb (bool_decide (c = equals_sign)) && no_equals rest
  end.

(** [key.replace(/^--/, '')] *)
Definition strip_dashes (key : string) : string :=
  match key with
  | String c1 (String c2 rest) =>
      if decide (c1 = dash ∧ c2 = dash) then rest else key
  | _ => key
  end.

(** [result[name] = v] on the plain object [result]: the name __proto__
    reaches the setter of [Object.prototype], which ignores a string or a
    boolean, so no property is stored under it. *)
Definition assign (name : string) (v : argval) (result : gmap string argval)
  : gmap string argval :=
  if decide (name = "__proto__") then result else <[name := v]> result.

(** The loop of [parseArgs] over the arguments that are left. An option
    without [=] takes the next argument as its value and skips it. *)
Fixpoint parse_from (args : list string) (result : gmap string argval)
  : gmap string argval :=
  match args with
  | [] => result
  | arg :: rest =>
      if String.prefix "--" arg then
        let parts := split_on equals_sign arg in
        let name := strip_dashes (default "" (parts !! 0)) in
        match parts !! 1 with
        | Some value => parse_from rest (assign name (ArgStr value) result)
        | None =>
            match rest with
            | next :: rest' => parse_from rest' (assign name (ArgStr next) result)
            | [] => assign name ArgTrue result
            end
        end
      else parse_from rest result
  end.

(** [process.argv.slice(2)] is what the loop runs over. *)
Definition parseArgs (argv : list string) : gmap string argval :=
  parse_from (drop 2 argv) ∅.

(** Truthiness of a property of the parsed arguments, [a || b], and the
    text of an argument value in a template literal or a form body. *)
Definition arg_truthy (a : option argval) : bool :=
  match a with
  | Some (ArgStr s) => negb (bool_decide (s = ""))
  | Some ArgTrue => true
  | None => false
  end.

Definition arg_or (a b : option argval) : option argval :=
  if arg_truthy a then a else b.

Definition arg_text (a : argval) : string :=
  match a with
  | ArgStr s => s
  | ArgTrue => "true"
  end.

(** The form body of the code exchange (with the constant grant type). *)
Record code_request : Type := {
  rq_client_id : option string;
  rq_client_secret : option string;
  rq_code : string;
  rq_redirect_uri : string
}.

(** What [new URL(req.url, base)] gives: the path and the two query
    parameters the handler reads. *)
Record parsed_url : Type := {
  pathname : string;
  query_code : option string;
  query_error : option string
}.

Record world : Type := {
  env : gmap string string;
  argv : list string;
  random_port : Z;
  token_endpoint : code_request → completion response;
  parse_url : string → string → completion parsed_url
}.

(** What is thrown and reported: an [Error] made by the script, with its
    message, or an exception of the runtime. *)
Inductive thrown : Type :=
| Message (msg : string)
| Native (e : error).

Inductive event : Type :=
| EFetch (req : code_request)
| ELog (line : string)
| ELogValue (v : value)
| ELogAuthorizeUrl (client_id : option string) (redirect_uri : string)
| EError (what : thrown)
| EListen (port : Z)
| ERespond (status : nat) (body : string)
| EClose.

Definition nl : string := String (Ascii.ascii_of_nat 10) EmptyString.

Definition REQUIRED : list string := ["YT_CLIENT_ID"; "YT_CLIENT_SECRET"].

Definition env_missing (w : world) (key : string) : bool :=
  match env w !! key with
  | None => true
  | Some s => bool_decide (s = "")
  end.

(** [missing.join(', ')] *)
Fixpoint join_comma_space (l : list string) : string :=
  match l with
  | [] => ""
  | [s] => s
  | s :: rest => s +:+ ", " +:+ join_comma_space rest
  end.

Definition exchangeCode (w : world) (req : code_request)
  : list event * (thrown + value) :=
  ([EFetch req],
   match token_endpoint w req with
   | Thrown e => inl (Native e)
   | Normal response =>
       if negb (ok response)
       then inl (Message ("Token exchange failed (" +:+ pretty (status response)
                          +:+ "): " +:+ text response))
       else
         match json response with
         | Thrown e => inl (Native e)
         | Normal payload =>
             match get_prop payload "refresh_token" with
             | Thrown e => inl (Native e)
             | Normal refresh_token =>
                 if negb (truthy refresh_token)
                 then inl (Message "No refresh_token returned. Try adding prompt=consent or ensuring access_type=offline.")
                 else inr payload
             end
         end
   end).

(** Both client settings are present, and the [code] option is truthy. *)
Definition env_complete (w : world) : Prop :=
  ∀ key, key ∈ REQUIRED → env_missing w key = false.

Definition code_given (w : world) : bool :=
  arg_truthy (parseArgs (argv w) !! "code").

(** The three lines that deliver the refresh token. *)
Definition token_lines (tokens : value) : list event :=
  [ELog (nl +:+ "Refresh token retrieved successfully:" +:+ nl);
   ELogValue (get_prop_opt tokens "refresh_token");
   ELog (nl +:+ "Copy this value into .env as YT_REFRESH_TOKEN." +:+ nl)].

Definition callback_uri (port : Z) : string :=
  "http://127.0.0.1:" +:+ pretty port +:+ "/oauth2callback".

(** How [main] ends: the process is over, or the server listens. *)
Inductive main_end : Type :=
| Exited (code : Z)
| Listening (port : Z) (redirectUri : string).

Definition main (w : world) : list event * main_end :=
  let missing := filter (λ key, env_missing w key) REQUIRED in
  if decide (length missing = 0) then
    let clientId := env w !! "YT_CLIENT_ID" in
    let clientSecret := env w !! "YT_CLIENT_SECRET" in
    let args := parseArgs (argv w) in
    let port := random_port w in
    let listen :=
      ([ELog (nl +:+ "Authorize this application by visiting:" +:+ nl);
        ELogAuthorizeUrl clientId (callback_uri port);
        ELog (nl +:+ "After approving access, you will be redirected to a local URL and this script will capture the code automatically." +:+ nl);
        EListen port;
        ELog ("Listening on " +:+ callback_uri port
              +:+ " for the OAuth redirect...")],
       Listening port (callback_uri port)) in
    match args !! "code" with
    | Some code =>
        if arg_truthy (Some code) then
          let redirectUri :=
            match arg_or (arg_or (args !! "redirect-uri") (args !! "redirect"))
                         (Some (ArgStr "urn:ietf:wg:oauth:2.0:oob")) with
            | Some uri => arg_text uri
            | None => "undefined"
            end in
          let log :=
            ELog ("Exchanging provided code using redirect URI: " +:+ redirectUri) in
          let '(events, result) :=
            exchangeCode w {| rq_client_id := clientId;
                              rq_client_secret := clientSecret;
                              rq_code := arg_text code;
                              rq_redirect_uri := redirectUri |} in
          match result with
          | inr tokens => (log :: events ++ token_lines tokens, Exited 0)
          | inl error => (log :: events ++ [EError error], Exited 1)
          end
        else listen
    | None => listen
    end
  else
    ([EError (Message ("Missing required environment variables: "
                       +:+ join_comma_space missing))],
     Exited 1).

(** How the handling of a request ends: the server goes on listening, the
    process exits at once, the server is closed and the process ends with
    the exit code set so far, or an exception leaves the handler. *)
Inductive handler_end : Type :=
| StillListening
| ExitedNow (code : Z)
| Closed (exitCode : Z)
| Unhandled (e : error).

(** The request handler of the local server, for the server of [port]. *)
Definition handle_request (w : world) (port : Z) (url : option string)
  : list event * handler_end :=
  match url with
  | None => ([], StillListening)
  | Some url =>
      if bool_decide (url = "") then ([], StillListening)
      else
        match parse_url w url ("http://127.0.0.1:" +:+ pretty port) with
        | Thrown e => ([], Unhandled e)
        | Normal parsed =>
            if negb (bool_decide (pathname parsed = "/oauth2callback"))
            then ([ERespond 404 ""], StillListening)
            else
              let code := query_code parsed in
              let error := query_error parsed in
              match error with
              | Some (String c msg) =>
                  ([ERespond 400 "Authorization failed. You can close this window.";
                    EError (Message ("Authorization error: " +:+ String c msg));
                    EClose],
                   ExitedNow 1)
              | _ =>
                  match code with
                  | Some (String c rest) =>
                      let '(events, result) :=
                        exchangeCode w
                          {| rq_client_id := env w !! "YT_CLIENT_ID";
                             rq_client_secret := env w !! "YT_CLIENT_SECRET";
                             rq_code := String c rest;
                             rq_redirect_uri := callback_uri port |} in
                      match result with
                      | inr tokens =>
                          (events
                             ++ ERespond 200 "Authorization complete. You can close this window."
                             :: token_lines tokens ++ [EClose],
                           Closed 0)
                      | inl err =>
                          (events
                             ++ [ERespond 500 "Token exchange failed. Check the terminal for details.";
                                 EError err; EClose],
                           Closed 1)
                      end
                  | _ =>
                      ([ERespond 400 "Missing authorization code. You can close this window.";
                        EError (Message "Missing authorization code.");
                        EClose],
                       ExitedNow 1)
                  end
              end
        end
  end.

(** A run of the helper: both client settings present, the option
    [--code] given last on the command line, a token endpoint that answers
    with a refresh token, and the three request URLs the examples use. *)
Definition example_parse_url (url base : string) : completion parsed_url :=
  if bool_decide (url = "/oauth2callback?code=4/0abc") then
    Normal {| pathname := "/oauth2callback";
              query_code := Some "4/0abc"; query_error := None |}
  else if bool_decide (url = "/oauth2callback?error=access_denied&code=4/0abc") then
    Normal {| pathname := "/oauth2callback";
              query_code := Some "4/0abc"; query_error := Some "access_denied" |}
  else
    Normal {| pathname := url; query_code := None; query_error := None |}.

Definition example_world : world :=
  {| env := list_to_map [("YT_CLIENT_ID", "id"); ("YT_CLIENT_SECRET", "secret")];
     argv := ["node"; "get-refresh-token.js"; "--code"];
     random_port := 50000;
     token_endpoint := λ _,
       Normal (json_response (VObj [("refresh_token", VStr "1//r")]));
     parse_url := example_parse_url |}.

End Helper.

(** * Properties *)

(** ** Completions *)

Lemma bind_Normal_inv {A B : Type} (c : completion A) (f : A → completion B) b :
  (c ≫= f) = Normal b → ∃ a, c = Normal a ∧ f a = Normal b.
Proof. destruct c as [a|e]; simpl; [eauto | discriminate]. Qed.

Ltac bind_inv H :=
  let a := fresh "a" in
  let Ha := fresh "H" a in
  apply bind_Normal_inv in H as (a & Ha & H).

Lemma mapC_length {A B : Type} (f : A → completion B) l out :
  mapC f l = Normal out → length out = length l.
Proof.
  revert out. induction l as [|x rest IH]; intros out Hout; simpl in Hout.
  - by inversion Hout.
  - bind_inv Hout. bind_inv Hout. inversion Hout; subst. simpl.
    f_equal. by apply IH.
Qed.

Lemma mapC_lookup {A B : Type} (f : A → completion B) l out i r :
  mapC f l = Normal out → out !! i = Some r →
  ∃ x, l !! i = Some x ∧ f x = Normal r.
Proof.
  revert out i. induction l as [|x rest IH]; intros out i Hout Hi; simpl in Hout.
  - inversion Hout; subst. by rewrite lookup_nil in Hi.
  - bind_inv Hout. bind_inv Hout. inversion Hout; subst.
    destruct i as [|i]; simpl in *.
    + inversion Hi; subst. eauto.
    + eapply IH; eauto.
Qed.

Lemma mapC_total {A B : Type} (f : A → completion B) l :
  Forall (λ x, ∃ y, f x = Normal y) l → ∃ out, mapC f l = Normal out.
Proof.
  induction 1 as [|x rest [y Hy] _ [ys Hys]]; simpl; [eauto|].
  rewrite Hy. simpl. rewrite Hys. simpl. eauto.
Qed.

(** ** The metrics transform *)

Section TransformProps.
Context `{NumberOps}.

Lemma transformRows_inv columnHeaders rows out i r :
  transformRows columnHeaders rows = Normal out → out !! i = Some r →
  ∃ headerIndex rs row,
    build_headerIndex (default_param columnHeaders (VArr [])) = Normal headerIndex
    ∧ rows = VArr rs ∧ rs !! i = Some row
    ∧ transformRow headerIndex row = Normal r.
Proof.
  unfold transformRows. intros Hout Hi.
  destruct rows as [| | | | |rs|]; simpl in Hout;
    try (inversion Hout; subst; by rewrite lookup_nil in Hi).
  destruct rs as [|row0 rs]; [inversion Hout; subst; by rewrite lookup_nil in Hi|].
  bind_inv Hout.
  destruct (mapC_lookup _ _ _ _ _ Hout Hi) as (row & Hrow & Hr).
  eauto 10.
Qed.

Lemma transformRow_inv headerIndex row r :
  transformRow headerIndex row = Normal r →
  getString headerIndex row "video" = Normal (videoId r)
  ∧ getNumber headerIndex row "views" = Normal (views (metrics r))
  ∧ getNumber headerIndex row "estimatedMinutesWatched"
      = Normal (watch_time_minutes (metrics r))
  ∧ getNumber headerIndex row "averageViewDuration"
      = Normal (average_view_duration_sec (metrics r))
  ∧ getNumber headerIndex row "likes" = Normal (likes (metrics r))
  ∧ getNumber headerIndex row "comments" = Normal (comments (metrics r))
  ∧ getNumber headerIndex row "shares" = Normal (shares (metrics r))
  ∧ watch_time_seconds (metrics r) = (watch_time_minutes (metrics r) * 60)%float.
Proof.
  unfold transformRow. intros Hr.
  do 7 bind_inv Hr. inversion Hr; subst; simpl. by repeat split.
Qed.

End TransformProps.

Section TransformClaims.
Context `{NumberOps}.

Lemma getNumber_inv headerIndex row key x :
  getNumber headerIndex row key = Normal x →
  match headerIndex !! key with
  | None => x = 0%float
  | Some idx =>
      ∃ value num,
        get_index row idx = Normal value ∧ ToNumber value = Normal num
        ∧ x = (if PrimFloat.is_nan num then 0%float else num)
  end.
Proof.
  unfold getNumber. destruct (headerIndex !! key) as [idx|]; intros Hx.
  - bind_inv Hx. bind_inv Hx. inversion Hx; subst. eauto.
  - by inversion Hx.
Qed.

Lemma ToNumber_primitive v :
  primitive v = true → ∃ num, ToNumber v = Normal num.
Proof. destruct v; simpl; intros; try discriminate; eauto. Qed.

Lemma ToString_primitive v :
  primitive v = true → ∃ s, ToString v = Normal s.
Proof. destruct v; simpl; intros; try discriminate; eauto. Qed.

Lemma get_index_plain cells idx :
  Forall (λ c, primitive c = true) cells →
  ∃ value, get_index (VArr cells) idx = Normal value ∧ primitive value = true.
Proof.
  intros Hcells. simpl. destruct (cells !! idx) as [c|] eqn:Hc; simpl.
  - exists c. split; [done|]. by eapply Forall_lookup_1 in Hcells.
  - by exists VUndefined.
Qed.

Lemma getNumber_plain headerIndex row key :
  plain_row row → ∃ x, getNumber headerIndex row key = Normal x.
Proof.
  intros (cells & -> & Hcells). unfold getNumber.
  destruct (headerIndex !! key) as [idx|]; [|eauto].
  destruct (get_index_plain cells idx Hcells) as (value & -> & Hv).
  destruct (ToNumber_primitive value Hv) as (num & Hnum).
  simpl. rewrite Hnum. simpl. eauto.
Qed.

Lemma getString_plain headerIndex row key :
  plain_row row → ∃ s, getString headerIndex row key = Normal s.
Proof.
  intros (cells & -> & Hcells). unfold getString.
  destruct (headerIndex !! key) as [idx|]; [|eauto].
  destruct (get_index_plain cells idx Hcells) as (value & -> & Hv).
  destruct value; simpl in *; try discriminate; eauto.
Qed.

Lemma transformRow_plain headerIndex row :
  plain_row row → ∃ r, transformRow headerIndex row = Normal r.
Proof.
  intros Hrow. unfold transformRow.
  destruct (getString_plain headerIndex row "video" Hrow) as [? ->].
  repeat match goal with
  | |- context [getNumber headerIndex row ?k] =>
      destruct (getNumber_plain headerIndex row k Hrow) as [? ->]; simpl
  end.
  eauto.
Qed.

(** On a table whose header list is an array (or left out) and whose rows
    are arrays of primitive cells the transform returns, one row for
    each. *)
Lemma transformRows_plain_total columnHeaders rs :
  is_array columnHeaders = true ∨ columnHeaders = VUndefined →
  Forall plain_row rs →
  ∃ out, transformRows columnHeaders (VArr rs) = Normal out
         ∧ length out = length rs.
Proof.
  intros Hh Hrs. unfold transformRows. simpl.
  destruct rs as [|row0 rs]; [by exists []|].
  assert (∃ hi, build_headerIndex (default_param columnHeaders (VArr []))
                = Normal hi) as [hi ->].
  { destruct Hh as [Hh| ->]; [|simpl; eauto].
    destruct columnHeaders; try discriminate. simpl. eauto. }
  simpl.
  destruct (mapC_total (transformRow hi) (row0 :: rs)) as [out Hout].
  { eapply Forall_impl; [exact Hrs|]. intros row Hrow.
    by apply transformRow_plain. }
  exists out. split; [done|]. by apply mapC_length in Hout.
Qed.

(** The transform is not total on every input: a row that is [null] has
    no columns to read, and reading one throws. ([main] catches the
    exception and exits.) *)
Lemma transformRows_null_row :
  transformRows scenario_headers (VArr [VNull]) = Thrown TypeError.
Proof. vm_compute. reflexivity. Qed.

(** C6. The scenario of the specification: the row
    ["abc123", 100, 50, 30, 5, 2, 1] under the seven named headers
    transforms to exactly one row, with videoId "abc123" and the metrics
    views 100, watch_time_minutes 50, watch_time_seconds 3000,
    average_view_duration_sec 30, likes 5, comments 2, shares 1. *)
Theorem transformRows_scenario :
  transformRows scenario_headers scenario_rows = Normal [scenario_record].
Proof. vm_compute. reflexivity. Qed.

(** C3. In every row the transform produces, watch_time_seconds is the
    product of watch_time_minutes and 60, and watch_time_minutes is what
    [getNumber] read in the estimatedMinutesWatched column of the source
    row: the seconds are computed from the minutes, never read from the
    row. *)
Theorem watch_time_seconds_derived columnHeaders rows out i r :
  transformRows columnHeaders rows = Normal out → out !! i = Some r →
  watch_time_seconds (metrics r) = (watch_time_minutes (metrics r) * 60)%float
  ∧ ∃ headerIndex rs row,
      build_headerIndex (default_param columnHeaders (VArr [])) = Normal headerIndex
      ∧ rows = VArr rs ∧ rs !! i = Some row
      ∧ getNumber headerIndex row "estimatedMinutesWatched"
        = Normal (watch_time_minutes (metrics r)).
Proof.
  intros Hout Hi.
  destruct (transformRows_inv _ _ _ _ _ Hout Hi) as (hi & rs & row & Hhi & -> & Hrow & Hr).
  apply transformRow_inv in Hr as (_ & _ & Hmin & _ & _ & _ & _ & Hsec).
  split; [done|]. eauto 10.
Qed.

(** C4. For every row the transform produces and every named numeric
    metric: when the metric's column is missing from the headers the
    field is 0; otherwise, with the value at the column index of the
    source row coerced by [Number], the field is the coerced number when
    that is a number, and 0 when it is NaN (the value is not numeric). *)
Theorem numeric_field_coerced columnHeaders rows out i r key field :
  transformRows columnHeaders rows = Normal out → out !! i = Some r →
  (key, field) ∈ numeric_metrics →
  ∃ headerIndex rs row,
    build_headerIndex (default_param columnHeaders (VArr [])) = Normal headerIndex
    ∧ rows = VArr rs ∧ rs !! i = Some row
    ∧ match headerIndex !! key with
      | None => field (metrics r) = 0%float
      | Some idx =>
          ∃ value num,
            get_index row idx = Normal value ∧ ToNumber value = Normal num
            ∧ (PrimFloat.is_nan num = false → field (metrics r) = num)
            ∧ (PrimFloat.is_nan num = true → field (metrics r) = 0%float)
      end.
Proof.
  intros Hout Hi Hkey.
  destruct (transformRows_inv _ _ _ _ _ Hout Hi) as (hi & rs & row & Hhi & -> & Hrow & Hr).
  exists hi, rs, row. repeat split; [done..|].
  apply transformRow_inv in Hr as (_ & Hv & Hm & Ha & Hl & Hc & Hs & _).
  assert (getNumber hi row key = Normal (field (metrics r))) as Hget.
  { unfold numeric_metrics in Hkey.
    repeat (apply elem_of_cons in Hkey as [Hkey|Hkey];
            [by inversion Hkey; subst|]).
    by apply elem_of_nil in Hkey. }
  apply getNumber_inv in Hget.
  destruct (hi !! key) as [idx|]; [|done].
  destruct Hget as (value & num & Hvalue & Hnum & Hfield).
  exists value, num. repeat split; [done..| |]; intros Hnan;
    by rewrite Hfield, Hnan.
Qed.

(** C7. The transform on malformed input: when the row list is not an
    array or is empty the result is the empty list, whatever the headers
    are; in a row that is an array, a lookup at a column index beyond its
    end gives 0 for a number and the empty string for a string; a row all
    of whose columns are beyond its end becomes the row of defaults; and on
    rows that are arrays of primitive cells, of any length, the transform
    returns one row for each. *)
Theorem transformRows_malformed :
  (∀ columnHeaders rows,
     is_array rows = false ∨ rows = VArr [] →
     transformRows columnHeaders rows = Normal [])
  ∧ (∀ headerIndex cells key idx,
       headerIndex !! key = Some idx → length cells ≤ idx →
       getNumber headerIndex (VArr cells) key = Normal 0%float
       ∧ getString headerIndex (VArr cells) key = Normal "")
  ∧ (∀ headerIndex cells,
       (∀ key idx, headerIndex !! key = Some idx → length cells ≤ idx) →
       transformRow headerIndex (VArr cells) = Normal default_row)
  ∧ (∀ columnHeaders rs,
       is_array columnHeaders = true ∨ columnHeaders = VUndefined →
       Forall plain_row rs →
       ∃ out, transformRows columnHeaders (VArr rs) = Normal out
              ∧ length out = length rs).
Proof.
  assert (∀ headerIndex cells key idx,
            headerIndex !! key = Some idx → length cells ≤ idx →
            getNumber headerIndex (VArr cells) key = Normal 0%float
            ∧ getString headerIndex (VArr cells) key = Normal "") as Hshort.
  { intros hi cells key idx Hidx Hlen. unfold getNumber, getString.
    rewrite Hidx. simpl. by rewrite (lookup_ge_None_2 cells idx Hlen). }
  assert (∀ headerIndex cells key,
            (∀ key idx, headerIndex !! key = Some idx → length cells ≤ idx) →
            getNumber headerIndex (VArr cells) key = Normal 0%float
            ∧ getString headerIndex (VArr cells) key = Normal "") as Hall.
  { intros hi cells key Hcols.
    destruct (hi !! key) as [idx|] eqn:Hidx; [by eapply Hshort; eauto|].
    unfold getNumber, getString. by rewrite Hidx. }
  split; [|split; [exact Hshort|split]].
  - intros columnHeaders rows [Hrows| ->]; [|done].
    unfold transformRows. by destruct rows.
  - intros hi cells Hcols. unfold transformRow.
    rewrite (proj2 (Hall hi cells "video" Hcols)).
    repeat match goal with
    | |- context [getNumber hi (VArr cells) ?k] =>
        rewrite (proj1 (Hall hi cells k Hcols)); simpl
    end.
    reflexivity.
  - apply transformRows_plain_total.
Qed.

End TransformClaims.

(** The scenario satisfies the premises of C3. *)
Lemma watch_time_seconds_derived_witness :
  @transformRows fixture_ops scenario_headers scenario_rows
    = Normal [scenario_record]
  ∧ [scenario_record] !! 0 = Some scenario_record
  ∧ watch_time_seconds (metrics scenario_record)
    = (watch_time_minutes (metrics scenario_record) * 60)%float.
Proof.
  split; [vm_compute; reflexivity|]. split; [reflexivity|].
  apply (@watch_time_seconds_derived fixture_ops scenario_headers scenario_rows
           [scenario_record] 0 scenario_record);
    [vm_compute; reflexivity | reflexivity].
Defined.

(** The scenario satisfies the premises of C4, here for the likes column. *)
Lemma numeric_field_coerced_witness :
  @transformRows fixture_ops scenario_headers scenario_rows
    = Normal [scenario_record]
  ∧ [scenario_record] !! 0 = Some scenario_record
  ∧ ("likes", likes) ∈ numeric_metrics
  ∧ ∃ headerIndex rs row,
      build_headerIndex (default_param scenario_headers (VArr []))
        = Normal headerIndex
      ∧ scenario_rows = VArr rs ∧ rs !! 0 = Some row
      ∧ match headerIndex !! "likes" with
        | None => likes (metrics scenario_record) = 0%float
        | Some idx =>
            ∃ value num,
              get_index row idx = Normal value
              ∧ @ToNumber fixture_ops value = Normal num
              ∧ (PrimFloat.is_nan num = false
                 → likes (metrics scenario_record) = num)
              ∧ (PrimFloat.is_nan num = true
                 → likes (metrics scenario_record) = 0%float)
        end.
Proof.
  assert (("likes", likes) ∈ numeric_metrics) as Hkey
    by (unfold numeric_metrics; repeat constructor).
  split; [vm_compute; reflexivity|]. split; [reflexivity|]. split; [exact Hkey|].
  apply (@numeric_field_coerced fixture_ops scenario_headers scenario_rows
           [scenario_record] 0 scenario_record "likes" likes);
    [vm_compute; reflexivity | reflexivity | exact Hkey].
Defined.

(** C7 at concrete inputs: [null] for the rows (and for the headers), the
    empty row under the headers of the scenario, and the scenario table. *)
Lemma transformRows_malformed_witness :
  @transformRows fixture_ops VNull VNull = Normal []
  ∧ @getNumber fixture_ops {["views" := 1]} (VArr [VStr "abc123"]) "views"
    = Normal 0%float
  ∧ @transformRow fixture_ops {["video" := 0; "views" := 1]} (VArr [])
    = Normal default_row
  ∧ ∃ out, @transformRows fixture_ops scenario_headers scenario_rows = Normal out
           ∧ length out = 1.
Proof.
  destruct (@transformRows_malformed fixture_ops) as (Hnone & Hshort & Hrow & Htotal).
  split; [apply Hnone; by left|].
  split; [apply (Hshort {["views" := 1]} [VStr "abc123"] "views" 1);
          [reflexivity | simpl; lia]|].
  split.
  - apply Hrow. intros key idx Hidx. simpl. lia.
  - apply (Htotal scenario_headers
             [VArr [VStr "abc123"; VNum 100; VNum 50; VNum 30; VNum 5; VNum 2; VNum 1]]).
    + by left.
    + repeat constructor. eexists. split; [reflexivity|]. repeat constructor.
Defined.

(** ** The standard record *)

(** C9. On every input that can be destructured, [standardize] returns an
    object with exactly the eight fields platform, post_id, permalink,
    created_at, text, hashtags, metrics, extra. Each field holds the
    input's value when the input has one, and otherwise its default: null
    for created_at and text, the empty array for hashtags, the empty
    object for metrics and extra. No other key of the input appears in
    the result, and the result depends on the input through the eight
    fields only. *)
Theorem standardize_shape input :
  nullish input = false →
  ∃ out,
    standardize input = Normal (VObj out)
    ∧ out.*1 = standard_keys
    ∧ (∀ key, key ∈ standard_keys →
         get_prop_opt input key ≠ VUndefined →
         own_property key out = Some (get_prop_opt input key))
    ∧ (∀ key, key ∈ standard_keys →
         get_prop_opt input key = VUndefined →
         own_property key out = Some (field_default key))
    ∧ (∀ key, key ∉ standard_keys → own_property key out = None)
    ∧ (∀ input', nullish input' = false →
         (∀ key, key ∈ standard_keys →
            get_prop_opt input' key = get_prop_opt input key) →
         standardize input' = standardize input).
Proof.
  intros Hin. unfold standardize. rewrite Hin.
  eexists. split; [reflexivity|]. split; [reflexivity|].
  assert (∀ key, key ∈ standard_keys →
            key = "platform" ∨ key = "post_id" ∨ key = "permalink"
            ∨ key = "created_at" ∨ key = "text" ∨ key = "hashtags"
            ∨ key = "metrics" ∨ key = "extra") as Hkeys.
  { intros key Hkey. unfold standard_keys in Hkey.
    repeat (apply elem_of_cons in Hkey as [Hkey|Hkey]; [tauto|]).
    by apply elem_of_nil in Hkey. }
  repeat split.
  - intros key Hkey Hdef.
    destruct (Hkeys key Hkey) as [->|[->|[->|[->|[->|[->|[->| ->]]]]]]]; simpl;
      unfold destructure; by destruct (get_prop_opt input _).
  - intros key Hkey Hundef.
    destruct (Hkeys key Hkey) as [->|[->|[->|[->|[->|[->|[->| ->]]]]]]]; simpl;
      unfold destructure; by rewrite Hundef.
  - intros key Hkey. unfold standard_keys in Hkey. simpl.
    repeat (case_decide; [subst; exfalso; apply Hkey; repeat constructor|]).
    done.
  - intros input' Hin' Hsame. rewrite Hin'. unfold destructure.
    by rewrite !Hsame by (unfold standard_keys; repeat constructor).
Qed.

(** C9 on an input that omits the five optional fields and carries a key
    of its own. *)
Lemma standardize_shape_witness :
  nullish (VObj [("platform", VStr "youtube"); ("post_id", VStr "abc123");
                 ("permalink", VStr "p"); ("note", VStr "dropped")]) = false
  ∧ standardize (VObj [("platform", VStr "youtube"); ("post_id", VStr "abc123");
                       ("permalink", VStr "p"); ("note", VStr "dropped")])
    = Normal (VObj [("platform", VStr "youtube"); ("post_id", VStr "abc123");
                    ("permalink", VStr "p"); ("created_at", VNull);
                    ("text", VNull); ("hashtags", VArr []);
                    ("metrics", VObj []); ("extra", VObj [])]).
Proof.
  split; [reflexivity|].
  destruct (standardize_shape
              (VObj [("platform", VStr "youtube"); ("post_id", VStr "abc123");
                     ("permalink", VStr "p"); ("note", VStr "dropped")])
              eq_refl) as (out & Hout & _).
  rewrite Hout. vm_compute in Hout. by inversion Hout.
Defined.

(** ** The report window *)

Lemma analytics_window_days today :
  snd (analytics_window today) = today
  ∧ fst (analytics_window today) = (today - 28)%Z
  ∧ length (window_days (analytics_window today)) = 29.
Proof.
  unfold analytics_window, window_days, subDays. simpl.
  repeat split. rewrite length_seqZ. lia.
Qed.

(** ** Effects of the steps *)

Section Effects.
Context `{NumberOps}.

Lemma assertEnv_run w tr :
  assertEnv w tr = (tr, Ret ()) ∨ assertEnv w tr = (tr, Exit 1).
Proof. unfold assertEnv. case_decide; [by left | by right]. Qed.

Lemma perform_run {A : Type} ev (c : completion A) tr :
  perform ev c tr
  = (tr ++ [ev], match c with Normal a => Ret a | Thrown e => Throw e end).
Proof. unfold perform, lift. by destruct c. Qed.

Lemma lift_run {A : Type} (c : completion A) tr :
  lift c tr = (tr, match c with Normal a => Ret a | Thrown e => Throw e end).
Proof. unfold lift. by destruct c. Qed.

Lemma bind_run {A B : Type} (m : M A) (f : A → M B) tr :
  (m ≫= f) tr
  = match m tr with
    | (tr', Ret a) => f a tr'
    | (tr', Exit code) => (tr', Exit code)
    | (tr', Throw e) => (tr', Throw e)
    end.
Proof. reflexivity. Qed.

(** What a token exchange that returns has seen: a successful response
    whose body is an object with a truthy access_token. *)
Lemma exchangeRefreshToken_run w tr :
  ∃ o, exchangeRefreshToken w tr = (tr ++ [EFetch (token_request w)], o)
       ∧ match o with
         | Ret tok =>
             ∃ resp props,
               fetch w (token_request w) = Normal resp ∧ ok resp = true
               ∧ json resp = Normal (VObj props)
               ∧ own_property "access_token" props = Some tok
               ∧ truthy tok = true
         | Exit code => code = 1%Z
         | Throw _ => True
         end.
Proof.
  unfold exchangeRefreshToken, do_fetch. rewrite bind_run, perform_run.
  destruct (fetch w (token_request w)) as [resp|e] eqn:Hfetch; [|by eexists].
  destruct (ok resp) eqn:Hok; simpl; [|by eexists].
  rewrite bind_run, lift_run.
  destruct (json resp) as [data|e] eqn:Hjson; [|by eexists].
  rewrite bind_run, lift_run.
  destruct (get_prop data "access_token") as [tok|e] eqn:Htok; [|by eexists].
  destruct (truthy tok) eqn:Htruthy; simpl; [|by eexists].
  eexists. split; [reflexivity|]. simpl.
  destruct data; simpl in Htok; inversion Htok; subst; try discriminate.
  destruct (own_property "access_token" props) as [v|] eqn:Hown;
    simpl in *; [|discriminate].
  eauto 10.
Qed.

(** A run either stops with exit code 1 having performed at most the
    directory creation and the token request, or its token exchange
    returned a token. *)
Lemma run_cases w :
  (snd (run w) = 1%Z
   ∧ fst (run w) `prefix_of` [EEnsureDir "data/analytics"; EFetch (token_request w)])
  ∨ (∃ resp props tok,
       fetch w (token_request w) = Normal resp ∧ ok resp = true
       ∧ json resp = Normal (VObj props)
       ∧ own_property "access_token" props = Some tok
       ∧ truthy tok = true).
Proof.
  unfold run, main, try_catch. rewrite bind_run.
  destruct (assertEnv_run w []) as [-> | ->].
  2: { left. simpl. split; [done|]. apply prefix_nil. }
  rewrite bind_run. unfold ensureDir. rewrite perform_run. simpl.
  destruct (ensureFsDir w "data/analytics") as [[]|e].
  2: { left. simpl. split; [done|]. by exists [EFetch (token_request w)]. }
  rewrite bind_run.
  destruct (exchangeRefreshToken_run w [EEnsureDir "data/analytics"])
    as (o & -> & Ho).
  destruct o as [tok|code|e].
  - right. destruct Ho as (resp & props & ?). eauto 10.
  - left. subst code. simpl. split; [done|]. by exists [].
  - left. simpl. split; [done|]. by exists [].
Qed.

(** C8. When the token endpoint answers successfully with a body that has
    no access_token, the process exits with code 1 and has performed at
    most the directory creation and the token request, so no analytics
    request; and whenever an analytics request appears in the trace of a
    run, the token response was successful and its body carried a truthy
    access_token. *)
Theorem token_gate w :
  (∀ resp data,
     fetch w (token_request w) = Normal resp → ok resp = true →
     json resp = Normal data → get_prop_opt data "access_token" = VUndefined →
     snd (run w) = 1%Z
     ∧ fst (run w) `prefix_of` [EEnsureDir "data/analytics"; EFetch (token_request w)]
     ∧ ∀ auth startDate endDate,
         EFetch (AnalyticsRequest auth startDate endDate) ∉ fst (run w))
  ∧ (∀ auth startDate endDate,
       EFetch (AnalyticsRequest auth startDate endDate) ∈ fst (run w) →
       ∃ resp props tok,
         fetch w (token_request w) = Normal resp ∧ ok resp = true
         ∧ json resp = Normal (VObj props)
         ∧ own_property "access_token" props = Some tok
         ∧ truthy tok = true).
Proof.
  assert (∀ tr auth startDate endDate,
            tr `prefix_of` [EEnsureDir "data/analytics"; EFetch (token_request w)] →
            EFetch (AnalyticsRequest auth startDate endDate) ∉ tr) as Hpre.
  { intros tr auth s e Hprefix Hin.
    eapply elem_of_prefix in Hin; [|exact Hprefix].
    apply elem_of_cons in Hin as [Hin|Hin]; [discriminate|].
    apply list_elem_of_singleton in Hin. discriminate. }
  split.
  - intros resp data Hfetch Hok Hjson Hlacks.
    destruct (run_cases w) as [[Hcode Htrace]|(resp' & props & tok & Hf & _ & Hj & Hown & Htruthy)].
    + repeat split; [done..|]. intros. by apply Hpre.
    + exfalso. rewrite Hfetch in Hf. inversion Hf; subst resp'.
      rewrite Hjson in Hj. inversion Hj; subst data.
      simpl in Hlacks. rewrite Hown in Hlacks. simpl in Hlacks.
      by subst tok.
  - intros auth s e Hin.
    destruct (run_cases w) as [[_ Htrace]|Htok]; [|done].
    exfalso. by eapply Hpre.
Qed.

End Effects.

(** C8 on the world whose token endpoint answers 200 with the empty
    object. *)
Lemma token_gate_witness :
  fetch tokenless_world (token_request tokenless_world)
    = Normal (json_response (VObj []))
  ∧ ok (json_response (VObj [])) = true
  ∧ json (json_response (VObj [])) = Normal (VObj [])
  ∧ get_prop_opt (VObj []) "access_token" = VUndefined
  ∧ snd (@run fixture_ops tokenless_world) = 1%Z
  ∧ ∀ auth startDate endDate,
      EFetch (AnalyticsRequest auth startDate endDate)
        ∉ fst (@run fixture_ops tokenless_world).
Proof.
  do 4 (split; [reflexivity|]).
  destruct (proj1 (@token_gate fixture_ops tokenless_world)
              (json_response (VObj [])) (VObj [])
              eq_refl eq_refl eq_refl eq_refl) as (Hcode & _ & Hnone).
  split; [exact Hcode | exact Hnone].
Defined.

(** ** Batching of the metadata requests *)

Lemma ceil_div_step m :
  0 < m → ceil_div m chunkSize = S (ceil_div (m - chunkSize) chunkSize).
Proof.
  intros Hm. unfold ceil_div, chunkSize.
  pose proof (Nat.div_mod_eq m 50) as E1.
  pose proof (Nat.mod_upper_bound m 50 ltac:(lia)) as B1.
  pose proof (Nat.div_mod_eq (m - 50) 50) as E2.
  pose proof (Nat.mod_upper_bound (m - 50) 50 ltac:(lia)) as B2.
  repeat case_decide; lia.
Qed.

Lemma ceil_div_0 d : 0 < d → ceil_div 0 d = 0.
Proof.
  intros Hd. unfold ceil_div.
  rewrite Nat.Div0.mod_0_l, Nat.Div0.div_0_l. by case_decide.
Qed.

Lemma slice_length {A : Type} (l : list A) i :
  length (slice i (i + chunkSize) l) ≤ chunkSize.
Proof. unfold slice. rewrite length_take. lia. Qed.

Lemma slice_subseteq {A : Type} (l : list A) i j : slice i j l ⊆ l.
Proof.
  unfold slice. etrans; [apply subseteq_take | apply subseteq_drop].
Qed.

Section Batching.
Context `{NumberOps}.

Lemma fetchMetadataChunk_run w tok chunk result tr :
  match bearer tok with
  | Normal authorization =>
      (fetchMetadataChunk w tok chunk result tr).1
      = tr ++ [EFetch (MetadataRequest authorization chunk)]
  | Thrown e => fetchMetadataChunk w tok chunk result tr = (tr, Throw e)
  end.
Proof.
  unfold fetchMetadataChunk. rewrite bind_run, lift_run.
  destruct (bearer tok) as [authorization|e]; [|done].
  unfold do_fetch. rewrite bind_run, perform_run.
  destruct (fetch w _) as [resp|e]; [|done].
  destruct (ok resp); simpl; [|done].
  rewrite bind_run, lift_run. destruct (json resp); [|done].
  by rewrite lift_run.
Qed.

Lemma fetchMetadataChunk_call ids w tok chunk result tr tr' o :
  length chunk ≤ chunkSize → chunk ⊆ ids →
  fetchMetadataChunk w tok chunk result tr = (tr', o) →
  (∃ ev, tr' = tr ++ [ev] ∧ metadata_call ids ev)
  ∨ (tr' = tr ∧ ∃ e, o = Throw e).
Proof.
  intros Hlen Hsub Hrun. pose proof (fetchMetadataChunk_run w tok chunk result tr) as Hb.
  destruct (bearer tok) as [authorization|e].
  - left. rewrite Hrun in Hb. simpl in Hb. eexists. split; [done|].
    by exists authorization, chunk.
  - right. rewrite Hrun in Hb. inversion Hb; subst. eauto.
Qed.

Lemma fetchMetadataChunk_ok w tok chunk result tr :
  metadata_endpoint_ok w tok →
  ∃ result', (fetchMetadataChunk w tok chunk result tr).2 = Ret result'.
Proof.
  intros (authorization & Hauth & Hchunks).
  destruct (Hchunks chunk) as (resp & payload & Hfetch & Hok & Hjson & Hitems).
  destruct (Hitems result) as [result' Hresult'].
  exists result'. unfold fetchMetadataChunk.
  rewrite bind_run, lift_run, Hauth. unfold do_fetch.
  rewrite bind_run, perform_run, Hfetch, Hok. simpl.
  rewrite bind_run, lift_run, Hjson, lift_run, Hresult'. done.
Qed.

(** The loop from index [i]: the requests it adds to the trace. *)
Lemma metadata_loop_calls w tok ids i result tr :
  ∃ calls,
    (metadata_loop w tok ids i result tr).1 = tr ++ calls
    ∧ Forall (metadata_call ids) calls
    ∧ length calls ≤ ceil_div (length ids - i) chunkSize
    ∧ ∀ m, (metadata_loop w tok ids i result tr).2 = Ret m →
           length calls = ceil_div (length ids - i) chunkSize.
Proof.
  funelim (metadata_loop w tok ids i result tr).
  - exists []. rewrite app_nil_r.
    replace (length ids - i) with 0 by lia.
    rewrite ceil_div_0 by (unfold chunkSize; lia).
    split; [done|]. split; [constructor|]. split; done.
  - destruct H0 as (calls & Htr & Hcalls & Hle & Heq').
    rewrite (ceil_div_step (length ids - i)) by lia.
    replace (length ids - i - chunkSize)
      with (length ids - (i + chunkSize)) by lia.
    apply (fetchMetadataChunk_call ids) in Heq
      as [(ev & -> & Hev)|(_ & e & [=])];
      [|apply slice_length|apply slice_subseteq].
    exists (ev :: calls). rewrite Htr, <- app_assoc. simpl.
    split; [done|]. split; [by constructor|]. split; [lia|].
    intros m Hm. f_equal. by eapply Heq'.
  - rewrite (ceil_div_step (length ids - i)) by lia.
    apply (fetchMetadataChunk_call ids) in Heq
      as [(ev & -> & Hev)|(_ & e & [=])];
      [|apply slice_length|apply slice_subseteq].
    exists [ev]. simpl.
    split; [done|]. split; [by repeat constructor|]. split; [lia|done].
  - rewrite (ceil_div_step (length ids - i)) by lia.
    apply (fetchMetadataChunk_call ids) in Heq
      as [(ev & -> & Hev)|(-> & _)];
      [| |apply slice_length|apply slice_subseteq].
    + exists [ev]. simpl.
      split; [done|]. split; [by repeat constructor|]. split; [lia|done].
    + exists []. rewrite app_nil_r. simpl.
      split; [done|]. split; [constructor|]. split; [lia|done].
Qed.

Lemma metadata_loop_total w tok ids i result tr :
  metadata_endpoint_ok w tok →
  ∃ m, (metadata_loop w tok ids i result tr).2 = Ret m.
Proof.
  intros Hok. funelim (metadata_loop w tok ids i result tr).
  - by eexists.
  - by apply H0.
  - destruct (fetchMetadataChunk_ok w tok
                (slice i (i + chunkSize) ids) result tr Hok) as [m Hm].
    rewrite Heq in Hm. discriminate.
  - destruct (fetchMetadataChunk_ok w tok
                (slice i (i + chunkSize) ids) result tr Hok) as [m Hm].
    rewrite Heq in Hm. discriminate.
Qed.

(** The requests of the metadata step. *)
Lemma fetchVideoMetadata_calls w tok ids tr :
  ∃ calls,
    (fetchVideoMetadata w tok ids tr).1 = tr ++ calls
    ∧ Forall (metadata_call ids) calls
    ∧ length calls ≤ ceil_div (length ids) chunkSize
    ∧ (∀ m, (fetchVideoMetadata w tok ids tr).2 = Ret m →
            length calls = ceil_div (length ids) chunkSize)
    ∧ (length ids = 0 → calls = []).
Proof.
  unfold fetchVideoMetadata. case_decide as Hlen.
  - exists []. rewrite app_nil_r, Hlen.
    rewrite ceil_div_0 by (unfold chunkSize; lia). simpl.
    split; [done|]. split; [constructor|]. done.
  - destruct (metadata_loop_calls w tok ids 0 ∅ tr)
      as (calls & Htr & Hcalls & Hle & Heq).
    rewrite Nat.sub_0_r in Hle, Heq.
    exists calls. repeat split; done.
Qed.

Lemma fetchVideoMetadata_total w tok ids tr :
  metadata_endpoint_ok w tok →
  ∃ m, (fetchVideoMetadata w tok ids tr).2 = Ret m.
Proof.
  intros Hok. unfold fetchVideoMetadata. case_decide; [by eexists|].
  by apply metadata_loop_total.
Qed.

(** C5. The metadata step adds to the trace only requests to the metadata
    endpoint, each for at most 50 of the ids, and never more than
    ceil(N/50) of them for N ids; when it returns it has made exactly
    ceil(N/50) requests, none for N = 0; and it returns whenever the
    endpoint answers every chunk successfully. *)
Theorem metadata_batching w tok ids tr :
  ∃ calls,
    (fetchVideoMetadata w tok ids tr).1 = tr ++ calls
    ∧ Forall (metadata_call ids) calls
    ∧ length calls ≤ ceil_div (length ids) chunkSize
    ∧ (∀ m, (fetchVideoMetadata w tok ids tr).2 = Ret m →
            length calls = ceil_div (length ids) chunkSize)
    ∧ (metadata_endpoint_ok w tok →
       ∃ m, (fetchVideoMetadata w tok ids tr).2 = Ret m)
    ∧ (length ids = 0 → calls = []).
Proof.
  destruct (fetchVideoMetadata_calls w tok ids tr)
    as (calls & Htr & Hcalls & Hle & Heq & Hnil).
  exists calls. repeat split; [done..| |done].
  apply fetchVideoMetadata_total.
Qed.

End Batching.

(** C5 on the example world, for a hundred and twenty ids: three
    requests. *)
Lemma metadata_batching_witness :
  @metadata_endpoint_ok fixture_ops example_world (VStr "tok")
  ∧ ∃ calls m,
      @fetchVideoMetadata fixture_ops example_world (VStr "tok") many_ids []
        = (calls, Ret m)
      ∧ length calls = 3
      ∧ Forall (metadata_call many_ids) calls.
Proof.
  assert (@metadata_endpoint_ok fixture_ops example_world (VStr "tok")) as Hok.
  { exists "Bearer tok". split; [reflexivity|]. intros chunk.
    eexists _, _. repeat split. intros result. eexists. reflexivity. }
  split; [exact Hok|].
  destruct (@metadata_batching fixture_ops example_world (VStr "tok") many_ids [])
    as (calls & Htr & Hcalls & _ & Hcount & Htotal & _).
  destruct (Htotal Hok) as [m Hm].
  exists calls, m. split; [|split; [exact (Hcount m Hm) | exact Hcalls]].
  destruct (fetchVideoMetadata _ _ _ _) as [tr' o]. simpl in *. by subst.
Defined.

(** ** Normalization and filtering *)

Lemma mapC_pure {A B : Type} (f : A → completion B) (g : A → B) l :
  (∀ x, f x = Normal (g x)) → mapC f l = Normal (g <$> l).
Proof.
  intros Hf. induction l as [|x rest IH]; simpl; [done|].
  by rewrite Hf, IH.
Qed.

Lemma truthy_false v :
  truthy v = false ↔
  v = VUndefined ∨ v = VNull ∨ v = VBool false ∨ v = VStr ""
  ∨ ∃ n, v = VNum n ∧ (PrimFloat.is_zero n || PrimFloat.is_nan n) = true.
Proof.
  split.
  - destruct v as [| |[]|n|s| |]; simpl; intros Hv; try discriminate; eauto.
    + do 4 right. exists n. split; [done|]. by apply negb_false_iff.
    + apply negb_false_iff, bool_decide_eq_true in Hv. subst. eauto.
  - intros [->|[->|[->|[->|(n & -> & Hn)]]]]; simpl; try done.
    by rewrite Hn.
Qed.

Lemma is_public_true v : is_public v = true ↔ v = VStr "public".
Proof.
  destruct v; simpl; try (split; [discriminate | intros [=]]).
  rewrite bool_decide_eq_true. split; [by intros -> | by intros [=]].
Qed.

Lemma standardize_standard_input meta entry :
  standardize (standard_input meta entry) = Normal (standard_input meta entry).
Proof.
  unfold standardize, standard_input, destructure. simpl.
  repeat f_equal.
  - by destruct (meta_field meta publishedAt).
  - by destruct (meta_field meta description).
  - by destruct (meta_field meta tags).
  - by destruct (truthy (meta_field meta title)).
Qed.

(** What the callback of the final [map] returns for a row. *)
Lemma normalizeRow_run m entry :
  normalizeRow m entry
  = Normal (if truthy (meta_field (m !! videoId entry) privacyStatus)
               && negb (is_public (meta_field (m !! videoId entry) privacyStatus))
            then VNull
            else standard_input (m !! videoId entry) entry).
Proof.
  unfold normalizeRow. destruct (_ && _); [done|].
  apply standardize_standard_input.
Qed.

Lemma normalize_run raw m :
  normalize raw m
  = Normal (filter (λ v, truthy v)
              ((λ entry,
                  if truthy (meta_field (m !! videoId entry) privacyStatus)
                     && negb (is_public
                                (meta_field (m !! videoId entry) privacyStatus))
                  then VNull
                  else standard_input (m !! videoId entry) entry) <$> raw)).
Proof.
  unfold normalize.
  by rewrite (mapC_pure _ _ raw (normalizeRow_run m)).
Qed.

Lemma normalize_elem raw m out rec :
  normalize raw m = Normal out → rec ∈ out →
  ∃ entry,
    entry ∈ raw ∧ rec = standard_input (m !! videoId entry) entry
    ∧ truthy (meta_field (m !! videoId entry) privacyStatus)
      && negb (is_public (meta_field (m !! videoId entry) privacyStatus))
      = false.
Proof.
  rewrite normalize_run. intros [= <-] Hrec.
  apply list_elem_of_filter in Hrec as [Htruthy Hrec].
  apply list_elem_of_fmap in Hrec as (entry & -> & Hentry).
  exists entry. destruct (_ && _); [done|]. eauto.
Qed.

Lemma normalize_kept raw m entry :
  entry ∈ raw →
  truthy (meta_field (m !! videoId entry) privacyStatus)
  && negb (is_public (meta_field (m !! videoId entry) privacyStatus)) = false →
  ∃ out, normalize raw m = Normal out
         ∧ standard_input (m !! videoId entry) entry ∈ out.
Proof.
  intros Hentry Hkeep. rewrite normalize_run. eexists. split; [done|].
  apply list_elem_of_filter. split; [done|].
  apply list_elem_of_fmap. exists entry. by rewrite Hkeep.
Qed.

(** C1, amended. The final output holds a record only for a video that
    has no metadata or whose privacy status in the metadata map is
    "public" or falsy ([undefined], [null], [false], a zero or NaN, or
    the empty string); a video with a truthy status other than "public"
    has no record; a row without metadata has its record, with the
    defaults. *)
Theorem normalize_privacy raw m :
  ∃ out,
    normalize raw m = Normal out
    ∧ (∀ rec, rec ∈ out →
         ∃ entry,
           entry ∈ raw
           ∧ get_prop_opt rec "post_id" = VStr (videoId entry)
           ∧ match m !! videoId entry with
             | None => True
             | Some meta =>
                 privacyStatus meta = VStr "public"
                 ∨ truthy (privacyStatus meta) = false
             end)
    ∧ (∀ entry meta,
         entry ∈ raw → m !! videoId entry = Some meta →
         truthy (privacyStatus meta) = true →
         privacyStatus meta ≠ VStr "public" →
         ∀ rec, rec ∈ out → get_prop_opt rec "post_id" ≠ VStr (videoId entry))
    ∧ (∀ entry,
         entry ∈ raw → m !! videoId entry = None → default_record entry ∈ out).
Proof.
  pose proof (normalize_run raw m) as Hrun.
  eexists. split; [exact Hrun|]. split; [|split].
  - intros rec Hrec.
    destruct (normalize_elem _ _ _ _ Hrun Hrec) as (entry & Hentry & -> & Hkeep).
    exists entry. split; [done|]. split; [done|].
    destruct (m !! videoId entry) as [meta|]; [|done]. simpl in Hkeep.
    apply andb_false_iff in Hkeep as [Hfalsy|Hpublic]; [by right|left].
    by apply negb_false_iff, is_public_true in Hpublic.
  - intros entry meta Hentry Hmeta Htruthy Hpriv rec Hrec Hid.
    destruct (normalize_elem _ _ _ _ Hrun Hrec) as (entry' & _ & -> & Hkeep).
    simpl in Hid. inversion Hid as [Hid']. rewrite Hid', Hmeta in Hkeep.
    simpl in Hkeep. rewrite Htruthy in Hkeep. simpl in Hkeep.
    apply negb_false_iff, is_public_true in Hkeep. done.
  - intros entry Hentry Hnone.
    destruct (normalize_kept raw m entry Hentry) as (out & Hout & Hin).
    { by rewrite Hnone. }
    rewrite Hrun in Hout. inversion Hout as [Hout']. subst out.
    rewrite Hnone in Hin. exact Hin.
Qed.

(** The metadata response of [blank_privacy_payload] leaves
    [blank_privacy_map], and the video is kept. *)
Lemma blank_privacy_run :
  add_items ∅ blank_privacy_payload = Normal blank_privacy_map
  ∧ normalize [scenario_record] blank_privacy_map
    = Normal [default_record scenario_record].
Proof. split; vm_compute; reflexivity. Qed.

(** C1 as stated fails: a record is produced for a video whose recorded
    privacy status is the empty string, which is present, not null and
    not "public". *)
Lemma privacy_claim_counterexample :
  ¬ (∀ raw m out rec entry meta,
       normalize raw m = Normal out → rec ∈ out → entry ∈ raw →
       get_prop_opt rec "post_id" = VStr (videoId entry) →
       m !! videoId entry = Some meta →
       privacyStatus meta = VStr "public" ∨ nullish (privacyStatus meta) = true).
Proof.
  intros Hclaim.
  destruct (Hclaim [scenario_record] blank_privacy_map
              [default_record scenario_record]
              (default_record scenario_record) scenario_record
              {| title := VNull; description := VNull; tags := VArr [];
                 publishedAt := VNull; privacyStatus := VStr "" |})
    as [Hpublic|Hnull].
  - apply blank_privacy_run.
  - apply list_elem_of_singleton. reflexivity.
  - apply list_elem_of_singleton. reflexivity.
  - reflexivity.
  - vm_compute. reflexivity.
  - discriminate Hpublic.
  - discriminate Hnull.
Qed.

(** The amended C1 on three rows: the private video has no record, the
    video without metadata has its default record. *)
Lemma normalize_privacy_witness :
  ∃ out,
    normalize privacy_rows privacy_map = Normal out
    ∧ privacy_map !! videoId private_row = Some private_metadata
    ∧ truthy (privacyStatus private_metadata) = true
    ∧ privacyStatus private_metadata ≠ VStr "public"
    ∧ (∀ rec, rec ∈ out → get_prop_opt rec "post_id" ≠ VStr "prv")
    ∧ privacy_map !! videoId unknown_row = None
    ∧ default_record unknown_row ∈ out.
Proof.
  destruct (normalize_privacy privacy_rows privacy_map)
    as (out & Hout & _ & Hdrop & Hkeep).
  assert (private_row ∈ privacy_rows) as Hprivate
    by (apply elem_of_cons; right; apply elem_of_cons; by left).
  assert (unknown_row ∈ privacy_rows) as Hunknown
    by (do 2 (apply elem_of_cons; right); apply elem_of_cons; by left).
  assert (privacy_map !! videoId private_row = Some private_metadata) as Hmeta
    by (vm_compute; reflexivity).
  assert (privacy_map !! videoId unknown_row = None) as Hnone
    by (vm_compute; reflexivity).
  exists out. split; [exact Hout|]. split; [exact Hmeta|].
  split; [reflexivity|]. split; [discriminate|]. split.
  - exact (Hdrop private_row private_metadata Hprivate Hmeta eq_refl
             ltac:(discriminate)).
  - split; [exact Hnone|]. exact (Hkeep unknown_row Hunknown Hnone).
Defined.

(** ** Rows without a video id *)

Lemma collect_videoIds_blank raw : "" ∉ collect_videoIds raw.
Proof.
  unfold collect_videoIds. intros Hin.
  by apply list_elem_of_filter in Hin as [Htruthy _].
Qed.

Lemma add_item_blank result item :
  result !! "" = None → add_item result item !! "" = None.
Proof.
  intros Hresult. unfold add_item.
  destruct (truthy (get_prop_opt item "id")) eqn:Hid; simpl; [|done].
  destruct (get_prop_opt item "id") as [| | | |s| |]; try done.
  rewrite lookup_insert_ne; [done|].
  intros ->. simpl in Hid. discriminate.
Qed.

Lemma add_items_blank result payload m :
  add_items result payload = Normal m → result !! "" = None → m !! "" = None.
Proof.
  unfold add_items. intros Hm Hresult. bind_inv Hm.
  destruct a as [| | | | |items|]; inversion Hm; subst; try done.
  clear Hm Ha. revert result Hresult.
  induction items as [|item items IH]; intros result Hresult; simpl; [done|].
  by apply IH, add_item_blank.
Qed.

Section BlankIds.
Context `{NumberOps}.

Lemma fetchMetadataChunk_blank w tok chunk result tr tr' m :
  fetchMetadataChunk w tok chunk result tr = (tr', Ret m) →
  result !! "" = None → m !! "" = None.
Proof.
  unfold fetchMetadataChunk. rewrite bind_run, lift_run.
  destruct (bearer tok) as [authorization|e]; [|discriminate].
  unfold do_fetch. rewrite bind_run, perform_run.
  destruct (fetch w _) as [resp|e]; [|discriminate].
  destruct (ok resp); simpl; [|discriminate].
  rewrite bind_run, lift_run. destruct (json resp) as [payload|]; [|discriminate].
  rewrite lift_run.
  destruct (add_items result payload) as [m'|] eqn:Hm'; [|discriminate].
  intros [= _ <-]. by eapply add_items_blank.
Qed.

Lemma metadata_loop_blank w tok ids i result tr m :
  (metadata_loop w tok ids i result tr).2 = Ret m →
  result !! "" = None → m !! "" = None.
Proof.
  funelim (metadata_loop w tok ids i result tr); simpl.
  - by intros [= <-].
  - intros Hm Hresult. apply H0; [done|].
    by eapply fetchMetadataChunk_blank.
  - discriminate.
  - discriminate.
Qed.

Lemma fetchVideoMetadata_blank w tok ids tr m :
  (fetchVideoMetadata w tok ids tr).2 = Ret m → m !! "" = None.
Proof.
  unfold fetchVideoMetadata. case_decide.
  - by intros [= <-].
  - intros Hm. by eapply metadata_loop_blank.
Qed.

End BlankIds.

(** ** A whole run *)

Section Run.
Context `{NumberOps}.

Lemma fetchAnalytics_run w tok tr :
  match bearer tok with
  | Normal authorization =>
      let req :=
        AnalyticsRequest authorization
          (format_yyyy_MM_dd (today_at_fetch w - 28))
          (format_yyyy_MM_dd (today_at_fetch w)) in
      ∃ o, fetchAnalytics w tok tr = (tr ++ [EFetch req], o)
           ∧ match o with
             | Ret payload =>
                 ∃ resp, fetch w req = Normal resp ∧ ok resp = true
                         ∧ json resp = Normal payload
             | Exit code => code = 1%Z
             | Throw _ => True
             end
  | Thrown e => fetchAnalytics w tok tr = (tr, Throw e)
  end.
Proof.
  unfold fetchAnalytics. rewrite bind_run, lift_run.
  destruct (bearer tok) as [authorization|e]; [|done].
  unfold do_fetch, analytics_window, subDays. simpl.
  rewrite bind_run, perform_run.
  destruct (fetch w _) as [resp|e] eqn:Hfetch; [|by eexists].
  destruct (ok resp) eqn:Hok; simpl; [|by eexists].
  rewrite bind_run, lift_run.
  destruct (json resp) as [payload|e] eqn:Hjson; [|by eexists].
  eexists. split; [reflexivity|]. simpl. eauto.
Qed.

Lemma fetchMetadataChunk_exit w tok chunk result tr tr' code :
  fetchMetadataChunk w tok chunk result tr = (tr', Exit code) → code = 1%Z.
Proof.
  unfold fetchMetadataChunk. rewrite bind_run, lift_run.
  destruct (bearer tok) as [authorization|e]; [|discriminate].
  unfold do_fetch. rewrite bind_run, perform_run.
  destruct (fetch w _) as [resp|e]; [|discriminate].
  destruct (ok resp); simpl; [|by intros [= _ <-]].
  rewrite bind_run, lift_run. destruct (json resp) as [payload|]; [|discriminate].
  rewrite lift_run. by destruct (add_items result payload).
Qed.

Lemma metadata_loop_exit w tok ids i result tr code :
  (metadata_loop w tok ids i result tr).2 = Exit code → code = 1%Z.
Proof.
  funelim (metadata_loop w tok ids i result tr); simpl.
  - discriminate.
  - apply H0.
  - intros [= <-]. by eapply fetchMetadataChunk_exit.
  - discriminate.
Qed.

Lemma fetchVideoMetadata_exit w tok ids tr code :
  (fetchVideoMetadata w tok ids tr).2 = Exit code → code = 1%Z.
Proof.
  unfold fetchVideoMetadata. case_decide; [discriminate|].
  apply metadata_loop_exit.
Qed.

Lemma saveStandardJson_run w platform records tr :
  ∃ tr' o,
    saveStandardJson w platform records tr = (tr', o)
    ∧ match o with
      | Ret filePath =>
          tr' = tr ++ [EEnsureDir (path_join [cwd w; "data"; "analytics"]);
                       EWriteJson filePath records]
      | Exit _ => False
      | Throw _ => True
      end.
Proof.
  unfold saveStandardJson, ensureDir. rewrite bind_run, perform_run.
  destruct (ensureFsDir w _) as [[]|e]; [|by eexists _, _].
  rewrite bind_run, perform_run.
  destruct (writeJson w _ _) as [[]|e]; [|by eexists _, _].
  eexists _, _. split; [reflexivity|]. simpl. by rewrite <- app_assoc.
Qed.

(** A run that ends with exit code 0 went through every step: the trace
    is the directory creation, the token request, the analytics request,
    the metadata requests, and the write of the normalized records. *)
Lemma run_success w tr :
  run w = (tr, 0%Z) →
  ∃ tok authorization resp payload columnHeaders rows raw calls m records
    filePath,
    let req :=
      AnalyticsRequest authorization
        (format_yyyy_MM_dd (today_at_fetch w - 28))
        (format_yyyy_MM_dd (today_at_fetch w)) in
    let head :=
      [EEnsureDir "data/analytics"; EFetch (token_request w); EFetch req] in
    bearer tok = Normal authorization
    ∧ fetch w req = Normal resp ∧ json resp = Normal payload
    ∧ get_prop payload "columnHeaders" = Normal columnHeaders
    ∧ get_prop payload "rows" = Normal rows
    ∧ transformRows columnHeaders rows = Normal raw
    ∧ fetchVideoMetadata w tok (collect_videoIds raw) head
      = (head ++ calls, Ret m)
    ∧ Forall (metadata_call (collect_videoIds raw)) calls
    ∧ normalize raw m = Normal records
    ∧ tr = head ++ calls
             ++ [EEnsureDir (path_join [cwd w; "data"; "analytics"]);
                 EWriteJson filePath records].
Proof.
  unfold run, main, try_catch. rewrite bind_run.
  destruct (assertEnv_run w []) as [-> | ->]; [|discriminate].
  rewrite bind_run. unfold ensureDir at 1. rewrite perform_run. simpl.
  destruct (ensureFsDir w "data/analytics") as [[]|e]; [|discriminate].
  rewrite bind_run.
  destruct (exchangeRefreshToken_run w [EEnsureDir "data/analytics"])
    as (o & -> & Ho).
  destruct o as [tok|code|e]; [|subst code; discriminate|discriminate].
  clear Ho. rewrite bind_run.
  pose proof (fetchAnalytics_run w tok
                ([EEnsureDir "data/analytics"] ++ [EFetch (token_request w)]))
    as Hanalytics.
  destruct (bearer tok) as [authorization|e] eqn:Hbearer;
    [|rewrite Hanalytics; discriminate].
  destruct Hanalytics as (o & -> & Ho).
  destruct o as [payload|code|e]; [|subst code; discriminate|discriminate].
  destruct Ho as (resp & Hfetch & _ & Hjson). simpl app.
  rewrite bind_run, lift_run.
  destruct (get_prop payload "columnHeaders") as [columnHeaders|e] eqn:Hheaders;
    [|discriminate].
  rewrite bind_run, lift_run.
  destruct (get_prop payload "rows") as [rows|e] eqn:Hrows; [|discriminate].
  rewrite bind_run, lift_run.
  destruct (transformRows columnHeaders rows) as [raw|e] eqn:Hraw; [|discriminate].
  rewrite bind_run.
  match goal with
  | |- context [fetchVideoMetadata w tok (collect_videoIds raw) ?hd] =>
      destruct (fetchVideoMetadata_calls w tok (collect_videoIds raw) hd)
        as (calls & Htr & Hcalls & _);
      pose proof (fetchVideoMetadata_exit w tok (collect_videoIds raw) hd) as Hexit;
      destruct (fetchVideoMetadata w tok (collect_videoIds raw) hd)
        as [tr1 [m|code|e]] eqn:Hmeta
  end; simpl in Htr; subst tr1;
    [|rewrite (Hexit code eq_refl); discriminate|discriminate].
  clear Hexit. rewrite bind_run, lift_run.
  destruct (normalize raw m) as [records|e] eqn:Hrecords; [|discriminate].
  rewrite bind_run.
  match goal with
  | |- context [saveStandardJson w "youtube" records ?t] =>
      destruct (saveStandardJson_run w "youtube" records t) as (tr2 & o & -> & Ho)
  end.
  destruct o as [filePath|code|e]; [|done|discriminate].
  subst tr2. intros [= <-].
  exists tok, authorization, resp, payload, columnHeaders, rows, raw, calls, m,
    records, filePath.
  simpl. repeat split; done.
Qed.

(** C10. In a run that ends with exit code 0, with [raw] the rows
    transformed from the analytics response: the id list given to the
    metadata step does not hold the empty string and no metadata request
    of the trace asks for it, yet for every row of [raw] whose videoId is
    the empty string the records written at the end of the run hold its
    record, with post_id the empty string and created_at, text, hashtags
    and extra at their defaults (null, null, the empty array, the empty
    object). *)
Theorem blank_videoId_row w tr :
  run w = (tr, 0%Z) →
  ∃ authorization resp payload columnHeaders rows raw records filePath,
    fetch w (AnalyticsRequest authorization
               (format_yyyy_MM_dd (today_at_fetch w - 28))
               (format_yyyy_MM_dd (today_at_fetch w))) = Normal resp
    ∧ json resp = Normal payload
    ∧ get_prop payload "columnHeaders" = Normal columnHeaders
    ∧ get_prop payload "rows" = Normal rows
    ∧ transformRows columnHeaders rows = Normal raw
    ∧ last tr = Some (EWriteJson filePath records)
    ∧ ("" ∉ collect_videoIds raw)
    ∧ (∀ auth chunk,
         EFetch (MetadataRequest auth chunk) ∈ tr →
         (chunk ⊆ collect_videoIds raw) ∧ ("" ∉ chunk))
    ∧ ∀ entry,
        entry ∈ raw → videoId entry = "" →
        default_record entry ∈ records
        ∧ get_prop_opt (default_record entry) "post_id" = VStr "".
Proof.
  intros Hrun.
  destruct (run_success w tr Hrun)
    as (tok & authorization & resp & payload & columnHeaders & rows & raw
        & calls & m & records & filePath & Hbearer & Hfetch & Hjson & Hheaders
        & Hrows & Hraw & Hmeta & Hcalls & Hrecords & ->).
  exists authorization, resp, payload, columnHeaders, rows, raw, records, filePath.
  do 5 (split; [done|]).
  split.
  { rewrite (app_assoc _ calls).
    match goal with
    | |- last (?l ++ [?x; ?y]) = _ =>
        replace (l ++ [x; y]) with ((l ++ [x]) ++ [y])
          by (by rewrite <- app_assoc)
    end.
    apply last_snoc. }
  split; [apply collect_videoIds_blank|].
  split.
  - intros auth chunk Hin.
    assert (chunk ⊆ collect_videoIds raw) as Hsub.
    { rewrite !elem_of_app in Hin. destruct Hin as [Hin|[Hin|Hin]].
      - repeat (apply elem_of_cons in Hin as [[=]|Hin]).
        by apply elem_of_nil in Hin.
      - eapply Forall_forall in Hcalls; [|exact Hin].
        destruct Hcalls as (auth' & chunk' & [= -> ->] & _ & Hsub). done.
      - repeat (apply elem_of_cons in Hin as [[=]|Hin]).
        by apply elem_of_nil in Hin. }
    split; [done|]. intros Hblank. apply Hsub in Hblank.
    by apply collect_videoIds_blank in Hblank.
  - intros entry Hentry Hid.
    assert (m !! "" = None) as Hnone.
    { eapply fetchVideoMetadata_blank. by rewrite Hmeta. }
    destruct (normalize_kept raw m entry Hentry) as (out & Hout & Hin).
    { by rewrite Hid, Hnone. }
    rewrite Hrecords in Hout. inversion Hout; subst out.
    rewrite Hid, Hnone in Hin.
    split; [exact Hin|]. simpl. by rewrite Hid.
Qed.

End Run.

(** C10 on the example world, whose second row has no video id. *)
Lemma blank_videoId_row_witness :
  ∃ tr filePath records,
    @run fixture_ops example_world = (tr, 0%Z)
    ∧ last tr = Some (EWriteJson filePath records)
    ∧ default_record
        {| videoId := "";
           metrics := {| views := 7; watch_time_minutes := 0;
                         watch_time_seconds := 0;
                         average_view_duration_sec := 0;
                         likes := 0; comments := 0; shares := 0 |} |}
      ∈ records.
Proof.
  assert (@run fixture_ops example_world
          = ((@run fixture_ops example_world).1, 0%Z)) as Hrun
    by (vm_compute; reflexivity).
  destruct (@blank_videoId_row fixture_ops example_world _ Hrun)
    as (auth & resp & payload & columnHeaders & rows & raw & records & filePath
        & Hfetch & Hjson & Hheaders & Hrows & Hraw & Hlast & _ & _ & Hrow).
  simpl in Hfetch. inversion Hfetch; subst resp.
  simpl in Hjson. inversion Hjson; subst payload.
  vm_compute in Hheaders. inversion Hheaders; subst columnHeaders.
  vm_compute in Hrows. inversion Hrows; subst rows.
  vm_compute in Hraw. inversion Hraw; subst raw.
  exists (@run fixture_ops example_world).1, filePath, records.
  split; [exact Hrun|]. split; [exact Hlast|].
  apply Hrow; [|reflexivity].
  apply elem_of_cons. right. apply elem_of_cons. by left.
Defined.

(** The analytics request of [fetchAnalytics]. *)
Lemma fetchAnalytics_request `{NumberOps} w tok authorization tr :
  bearer tok = Normal authorization →
  (fetchAnalytics w tok tr).1
  = tr ++ [EFetch (AnalyticsRequest authorization
                     (format_yyyy_MM_dd (today_at_fetch w - 28))
                     (format_yyyy_MM_dd (today_at_fetch w)))].
Proof.
  intros Hbearer. pose proof (fetchAnalytics_run w tok tr) as Hrun.
  rewrite Hbearer in Hrun. destruct Hrun as (o & -> & _). done.
Qed.

(** C2. On 2024-01-29 the analytics request carries the start date
    2024-01-01 and the end date 2024-01-29, and the calendar days from the
    one to the other, both included, are 29, not 28; the window has 29
    days on every date. *)
Theorem fetchAnalytics_window_2024_01_29 :
  (@fetchAnalytics fixture_ops example_world (VStr "tok") []).1
  = [EFetch (AnalyticsRequest "Bearer tok" "2024-01-01" "2024-01-29")]
  ∧ format_yyyy_MM_dd <$> window_days (analytics_window day_2024_01_29)
    = ["2024-01-01"; "2024-01-02"; "2024-01-03"; "2024-01-04"; "2024-01-05";
       "2024-01-06"; "2024-01-07"; "2024-01-08"; "2024-01-09"; "2024-01-10";
       "2024-01-11"; "2024-01-12"; "2024-01-13"; "2024-01-14"; "2024-01-15";
       "2024-01-16"; "2024-01-17"; "2024-01-18"; "2024-01-19"; "2024-01-20";
       "2024-01-21"; "2024-01-22"; "2024-01-23"; "2024-01-24"; "2024-01-25";
       "2024-01-26"; "2024-01-27"; "2024-01-28"; "2024-01-29"]
  ∧ length (window_days (analytics_window day_2024_01_29)) = 29
  ∧ ∀ today, length (window_days (analytics_window today)) = 29.
Proof.
  repeat split; try (vm_compute; reflexivity).
  intros today. apply analytics_window_days.
Qed.

(** ** Further properties of the standard record *)

Lemma default_param_idem x d :
  default_param (default_param x d) d = default_param x d.
Proof. destruct x; try done. by destruct d. Qed.

(** Standardizing a standard record changes nothing: whatever
    [standardize] returns is returned unchanged when standardized
    again. *)
Theorem standardize_idempotent input out :
  standardize input = Normal out → standardize out = Normal out.
Proof.
  unfold standardize. destruct (nullish input); [discriminate|].
  intros [= <-]. simpl. unfold destructure. simpl.
  by rewrite !default_param_idem.
Qed.

Lemma standardize_idempotent_witness :
  standardize (VObj [("platform", VStr "youtube"); ("note", VStr "dropped")])
  = Normal (VObj [("platform", VStr "youtube"); ("post_id", VUndefined);
                  ("permalink", VUndefined); ("created_at", VNull);
                  ("text", VNull); ("hashtags", VArr []);
                  ("metrics", VObj []); ("extra", VObj [])])
  ∧ standardize (VObj [("platform", VStr "youtube"); ("post_id", VUndefined);
                       ("permalink", VUndefined); ("created_at", VNull);
                       ("text", VNull); ("hashtags", VArr []);
                       ("metrics", VObj []); ("extra", VObj [])])
    = Normal (VObj [("platform", VStr "youtube"); ("post_id", VUndefined);
                    ("permalink", VUndefined); ("created_at", VNull);
                    ("text", VNull); ("hashtags", VArr []);
                    ("metrics", VObj []); ("extra", VObj [])]).
Proof.
  split; [reflexivity|].
  apply (standardize_idempotent
           (VObj [("platform", VStr "youtube"); ("note", VStr "dropped")])).
  reflexivity.
Defined.

(** ** The header index *)

Section HeaderIndex.

Lemma fill_headerIndex_step key header rest start m :
  key ≠ "" →
  ∃ m',
    fill_headerIndex (header :: rest) start m = fill_headerIndex rest (S start) m'
    ∧ ((header_named key header ∧ m' !! key = Some start)
       ∨ (¬ header_named key header ∧ m' !! key = m !! key)).
Proof.
  intros Hkey. simpl. eexists. split; [reflexivity|].
  unfold header_named.
  destruct (get_prop_opt header "name") as [| | | |s| |] eqn:Hname;
    try (right; split; [discriminate | by destruct (truthy _)]).
  destruct (decide (s = key)) as [->|Hne].
  - left. split; [done|]. simpl.
    rewrite bool_decide_eq_false_2 by done. simpl. apply lookup_insert_eq.
  - right. split; [by intros [=]|].
    destruct (truthy (VStr s)); [|done].
    by apply lookup_insert_ne.
Qed.

Lemma fill_headerIndex_lookup key headers :
  key ≠ "" → ∀ start m idx,
  fill_headerIndex headers start m !! key = Some idx ↔
    (∃ k h, idx = start + k ∧ headers !! k = Some h ∧ header_named key h
            ∧ ∀ j h', k < j → headers !! j = Some h' → ¬ header_named key h')
    ∨ (m !! key = Some idx
       ∧ ∀ j h', headers !! j = Some h' → ¬ header_named key h').
Proof.
  intros Hkey. induction headers as [|header rest IH]; intros start m idx.
  - simpl. split; [intros Hm; right; split; [done|]; intros j h' Hj;
                   by rewrite lookup_nil in Hj|].
    intros [(k & h & _ & Hk & _)|[Hm _]]; [by rewrite lookup_nil in Hk | done].
  - destruct (fill_headerIndex_step key header rest start m Hkey)
      as (m' & -> & Hm').
    rewrite (IH (S start) m' idx). split.
    + intros [(k & h & -> & Hk & Hh & Hlater)|[Hidx Hnone]].
      * left. exists (S k), h. split_and!; [lia | done | done |].
        intros [|j] h' Hj Hj'; [lia|]. apply (Hlater j); [lia | done].
      * destruct Hm' as [[Hnamed Hstart]|[Hnot Hsame]].
        -- left. exists 0, header. rewrite Hstart in Hidx.
           inversion Hidx; subst idx. split_and!; [lia | done | done |].
           intros [|j] h' Hj Hj'; [lia|]. by apply (Hnone j).
        -- right. rewrite Hsame in Hidx. split; [done|].
           intros [|j] h' Hj; [by inversion Hj; subst|]. by apply (Hnone j).
    + intros [(k & h & -> & Hk & Hh & Hlater)|[Hidx Hnone]].
      * destruct k as [|k].
        -- simpl in Hk. inversion Hk; subst h.
           destruct Hm' as [[_ Hstart]|[Hnot _]]; [|done].
           right. split; [by rewrite Hstart, Nat.add_0_r|].
           intros j h' Hj. apply (Hlater (S j)); [lia | done].
        -- left. exists k, h. split_and!; [lia | done | done |].
           intros j h' Hj Hj'. apply (Hlater (S j)); [lia | done].
      * destruct Hm' as [[Hnamed _]|[_ Hsame]].
        -- exfalso. by apply (Hnone 0 header).
        -- right. rewrite Hsame. split; [done|].
           intros j h' Hj. by apply (Hnone (S j)).
Qed.

Lemma fill_headerIndex_blank headers : ∀ start m,
  m !! "" = None → fill_headerIndex headers start m !! "" = None.
Proof.
  induction headers as [|header rest IH]; intros start m Hm; simpl; [done|].
  apply IH.
  destruct (truthy (get_prop_opt header "name")) eqn:Htruthy; [|done].
  destruct (get_prop_opt header "name") as [| | | |s| |]; try done.
  rewrite lookup_insert_ne; [done|]. intros ->. discriminate.
Qed.

(** The header index built by [transformRows] maps a column name to the
    position of the last header object carrying that name, and to nothing
    when no header carries it; so every index it holds is a position of
    the header list. The empty name is never a key. *)
Theorem headerIndex_last_wins headers key idx :
  key ≠ "" →
  (build_headerIndex (VArr headers) = Normal (fill_headerIndex headers 0 ∅))
  ∧ (fill_headerIndex headers 0 ∅ !! key = Some idx ↔
       ∃ h, headers !! idx = Some h ∧ header_named key h
            ∧ ∀ j h', idx < j → headers !! j = Some h' → ¬ header_named key h')
  ∧ (fill_headerIndex headers 0 ∅ !! key = Some idx → idx < length headers)
  ∧ fill_headerIndex headers 0 ∅ !! "" = None.
Proof.
  intros Hkey. split; [done|].
  assert (fill_headerIndex headers 0 ∅ !! key = Some idx ↔
            ∃ h, headers !! idx = Some h ∧ header_named key h
                 ∧ ∀ j h', idx < j → headers !! j = Some h' → ¬ header_named key h')
    as Hiff.
  { rewrite (fill_headerIndex_lookup key headers Hkey 0 ∅ idx). split.
    - intros [(k & h & -> & Hk & Hh & Hlater)|[Hempty _]]; [|done].
      exists h. by repeat split.
    - intros (h & Hidx & Hh & Hlater). left. exists idx, h. by repeat split. }
  split; [exact Hiff|]. split.
  - intros Hidx. apply Hiff in Hidx as (h & Hidx & _).
    by eapply lookup_lt_Some.
  - by apply fill_headerIndex_blank.
Qed.

End HeaderIndex.

(** With two columns named views, the second one is read. *)
Lemma headerIndex_last_wins_witness :
  "views" ≠ ""
  ∧ fill_headerIndex [header "video"; header "views"; header "views"] 0 ∅
      !! "views" = Some 2.
Proof.
  split; [discriminate|].
  apply (proj1 (proj2 (headerIndex_last_wins
                         [header "video"; header "views"; header "views"]
                         "views" 2 ltac:(discriminate)))).
  exists (header "views"). split; [reflexivity|]. split; [reflexivity|].
  intros [|[|[|j]]] h' Hj Hj'; try lia; discriminate.
Defined.

(** ** The stages of a run *)

Section Stages.
Context `{NumberOps}.

Lemma assertEnv_cases w tr :
  (env_complete w ∧ assertEnv w tr = (tr, Ret ()))
  ∨ (¬ env_complete w ∧ assertEnv w tr = (tr, Exit 1)).
Proof.
  unfold assertEnv. case_decide as Hlen.
  - left. split; [|done]. intros key Hkey.
    destruct (env_missing w key) eqn:Hmissing; [|done].
    assert (key ∈ filter (λ key, env_missing w key) REQUIRED_ENV) as Hin.
    { apply list_elem_of_filter. split; [by rewrite Hmissing | done]. }
    destruct (filter _ REQUIRED_ENV); [by apply elem_of_nil in Hin | done].
  - right. split; [|done]. intros Hcomplete. apply Hlen.
    destruct (filter _ REQUIRED_ENV) as [|key rest] eqn:Hfilter; [done|].
    assert (key ∈ filter (λ key, env_missing w key) REQUIRED_ENV) as Hin
      by (rewrite Hfilter; apply elem_of_cons; by left).
    apply list_elem_of_filter in Hin as [Hmissing Hkey].
    rewrite (Hcomplete key Hkey) in Hmissing. done.
Qed.

Lemma exchangeRefreshToken_ok w tok tr :
  token_ok w tok →
  exchangeRefreshToken w tr = (tr ++ [EFetch (token_request w)], Ret tok).
Proof.
  intros (resp & props & Hfetch & Hok & Hjson & Hown & Htruthy).
  unfold exchangeRefreshToken, do_fetch.
  rewrite bind_run, perform_run, Hfetch, Hok. simpl.
  rewrite bind_run, lift_run, Hjson, bind_run, lift_run. simpl.
  rewrite Hown. simpl. by rewrite Htruthy.
Qed.

Lemma fetchAnalytics_cases w tok authorization tr :
  bearer tok = Normal authorization →
  (∃ resp payload,
     fetch w (analytics_request w authorization) = Normal resp
     ∧ ok resp = true ∧ json resp = Normal payload
     ∧ fetchAnalytics w tok tr
       = (tr ++ [EFetch (analytics_request w authorization)], Ret payload))
  ∨ ((∀ resp payload,
        fetch w (analytics_request w authorization) = Normal resp →
        ok resp = true → json resp ≠ Normal payload)
     ∧ ∃ o, fetchAnalytics w tok tr
            = (tr ++ [EFetch (analytics_request w authorization)], o)
            ∧ (o = Exit 1 ∨ ∃ e, o = Throw e)).
Proof.
  intros Hbearer. unfold fetchAnalytics. rewrite bind_run, lift_run, Hbearer.
  unfold do_fetch, analytics_window, subDays, analytics_request. simpl.
  rewrite bind_run, perform_run.
  destruct (fetch w _) as [resp|e] eqn:Hfetch.
  2: { right. split; [discriminate|]. eexists. split; [done|]. eauto. }
  destruct (ok resp) eqn:Hok; simpl.
  2: { right. split; [by intros ?? [= <-]; congruence|].
       eexists. split; [done|]. eauto. }
  rewrite bind_run, lift_run.
  destruct (json resp) as [payload|e] eqn:Hjson.
  - left. by exists resp, payload.
  - right. split; [intros ?? [= <-]; congruence|].
    eexists. split; [done|]. eauto.
Qed.

Lemma saveStandardJson_cases w records tr :
  let filePath :=
    path_join [analyticsDir w;
               format_yyyy_MM_dd (today_at_save w) +:+ "-youtube-analytics.json"] in
  (∃ e, ensureFsDir w (analyticsDir w) = Thrown e
        ∧ saveStandardJson w "youtube" records tr
          = (tr ++ [EEnsureDir (analyticsDir w)], Throw e))
  ∨ (ensureFsDir w (analyticsDir w) = Normal ()
     ∧ saveStandardJson w "youtube" records tr
       = (tr ++ [EEnsureDir (analyticsDir w); EWriteJson filePath records],
          match writeJson w filePath records with
          | Normal _ => Ret filePath
          | Thrown e => Throw e
          end)).
Proof.
  intros filePath. unfold saveStandardJson, ensureDir.
  rewrite bind_run, perform_run. fold (analyticsDir w).
  destruct (ensureFsDir w (analyticsDir w)) as [[]|e]; [right|left; eauto].
  split; [done|]. rewrite bind_run, perform_run, <- app_assoc.
  repeat match goal with
  | |- context [writeJson w ?p records] =>
      progress change p with filePath
  | |- context [EWriteJson ?p records] =>
      progress change p with filePath
  end.
  by destruct (writeJson w filePath records) as [[]|].
Qed.

Lemma run_stage_of w tr code : run w = (tr, code) → run_stage w tr code.
Proof.
  unfold run, main, try_catch. rewrite bind_run.
  destruct (assertEnv_cases w []) as [[Henv ->]|[Henv ->]];
    [|intros [= <- <-]; by apply StageEnv].
  rewrite bind_run. unfold ensureDir at 1. rewrite perform_run. simpl.
  destruct (ensureFsDir w "data/analytics") as [[]|e] eqn:Hmkdir;
    [|intros [= <- <-]; by eapply StageMkdir].
  assert (started w) as Hstarted by done.
  rewrite bind_run.
  destruct (exchangeRefreshToken_run w [EEnsureDir "data/analytics"])
    as (o & Hexchange & Ho).
  assert (∀ tok, token_ok w tok → o = Ret tok) as Hdet.
  { intros tok Htok.
    rewrite (exchangeRefreshToken_ok w tok _ Htok) in Hexchange. congruence. }
  rewrite Hexchange.
  destruct o as [tok|code'|e]; simpl;
    [|subst code'; intros [= <- <-]; apply StageToken; [done|]; intros tok Htok;
      by specialize (Hdet tok Htok)
     |intros [= <- <-]; apply StageToken; [done|]; intros tok Htok;
      by specialize (Hdet tok Htok)].
  assert (token_ok w tok) as Htok by exact Ho. clear Ho Hdet Hexchange.
  rewrite bind_run.
  destruct (bearer tok) as [authorization|e] eqn:Hbearer.
  2: { pose proof (fetchAnalytics_run w tok
                     [EEnsureDir "data/analytics"; EFetch (token_request w)])
         as Hrun.
       rewrite Hbearer in Hrun. rewrite Hrun. simpl.
       intros [= <- <-]. by eapply StageBearer. }
  destruct (fetchAnalytics_cases w tok authorization
              [EEnsureDir "data/analytics"; EFetch (token_request w)] Hbearer)
    as [(resp & payload & Hfetch & Hok & Hjson & ->)
       |(Hfailed & o & -> & Ho)].
  2: { assert (∀ raw, ¬ transformed w authorization raw) as Hnot.
       { intros raw (resp & payload & ? & ? & Hf & Hk & Hj & _).
         by eapply Hfailed. }
       destruct Ho as [->|[e ->]]; simpl; intros [= <- <-];
         by eapply StageAnalytics. }
  simpl app. fold (run_head w authorization).
  rewrite bind_run, lift_run.
  destruct (get_prop payload "columnHeaders") as [columnHeaders|e] eqn:Hheaders.
  2: { simpl. intros [= <- <-]. eapply StageAnalytics; try done.
       intros raw (resp' & payload' & ? & ? & Hf & _ & Hj & Hc & _).
       congruence. }
  rewrite bind_run, lift_run.
  destruct (get_prop payload "rows") as [rows|e] eqn:Hrows.
  2: { simpl. intros [= <- <-]. eapply StageAnalytics; try done.
       intros raw (resp' & payload' & ? & ? & Hf & _ & Hj & _ & Hr & _).
       congruence. }
  rewrite bind_run, lift_run.
  destruct (transformRows columnHeaders rows) as [raw|e] eqn:Hraw.
  2: { simpl. intros [= <- <-]. eapply StageAnalytics; try done.
       intros raw (resp' & payload' & ? & ? & Hf & _ & Hj & Hc & Hr & Ht).
       congruence. }
  assert (transformed w authorization raw) as Htransformed
    by (by exists resp, payload, columnHeaders, rows).
  rewrite bind_run.
  destruct (fetchVideoMetadata_calls w tok (collect_videoIds raw)
              (run_head w authorization)) as (calls & Htr & _).
  pose proof (fetchVideoMetadata_exit w tok (collect_videoIds raw)
                (run_head w authorization)) as Hexit.
  destruct (fetchVideoMetadata w tok (collect_videoIds raw)
              (run_head w authorization)) as [tr1 [m|code'|e]] eqn:Hmeta;
    simpl in Htr; subst tr1.
  2: { rewrite (Hexit code' eq_refl). simpl. intros [= <- <-].
       eapply StageMetadata; try done. }
  2: { simpl. intros [= <- <-]. eapply StageMetadata; try done. }
  clear Hexit. rewrite bind_run, lift_run.
  destruct (normalize raw m) as [records|e] eqn:Hrecords;
    [|by rewrite normalize_run in Hrecords].
  rewrite bind_run.
  match goal with
  | |- context [saveStandardJson w "youtube" records ?t] =>
      destruct (saveStandardJson_cases w records t)
        as [(e & Hdir & ->)|(Hdir & ->)]
  end.
  - simpl. intros [= <- <-].
    exact (StageSaveDir w tok authorization raw calls m e
             Hstarted Htok Hbearer Htransformed Hmeta Hdir).
  - pose (filePath :=
            path_join [analyticsDir w;
                       format_yyyy_MM_dd (today_at_save w)
                         +:+ "-youtube-analytics.json"]).
    fold filePath.
    assert (fetchVideoMetadata w tok (collect_videoIds raw)
              (run_head w authorization)
            = (run_head w authorization ++ calls, Ret m)) as Hmeta'
      by exact Hmeta.
    pose proof (StageWrite w tok authorization raw calls m records filePath
                  Hstarted Htok Hbearer Htransformed Hmeta' Hdir
                  Hrecords eq_refl) as Hstage.
    destruct (writeJson w filePath records) as [[]|e];
      cbv beta iota delta [mret M_ret exit];
      intros Heq; injection Heq as Htr Hcode; subst tr code; exact Hstage.
Qed.

(** Every run is at one of the stages. *)
Lemma run_stage_run w : run_stage w (run w).1 (run w).2.
Proof. destruct (run w) as [tr code] eqn:Hrun. by apply run_stage_of. Qed.

End Stages.

(** ** Failing fast *)

Section FailFast.
Context `{NumberOps}.

Lemma fetchMetadataChunk_ret w tok chunk result tr tr' m :
  fetchMetadataChunk w tok chunk result tr = (tr', Ret m) →
  ∃ authorization resp payload,
    bearer tok = Normal authorization
    ∧ tr' = tr ++ [EFetch (MetadataRequest authorization chunk)]
    ∧ fetch w (MetadataRequest authorization chunk) = Normal resp
    ∧ ok resp = true ∧ json resp = Normal payload
    ∧ add_items result payload = Normal m.
Proof.
  unfold fetchMetadataChunk. rewrite bind_run, lift_run.
  destruct (bearer tok) as [authorization|e]; [|discriminate].
  unfold do_fetch. rewrite bind_run, perform_run.
  destruct (fetch w _) as [resp|e] eqn:Hfetch; [|discriminate].
  destruct (ok resp) eqn:Hok; simpl; [|discriminate].
  rewrite bind_run, lift_run.
  destruct (json resp) as [payload|] eqn:Hjson; [|discriminate].
  rewrite lift_run.
  destruct (add_items result payload) as [m'|] eqn:Hm'; [|discriminate].
  intros [= <- <-]. by exists authorization, resp, payload.
Qed.






End FailFast.


(** ** Exit codes and the output file *)

Section Output.
Context `{NumberOps}.

Lemma fetchVideoMetadata_trace w tok ids tr calls o :
  fetchVideoMetadata w tok ids tr = (tr ++ calls, o) →
  Forall (metadata_call ids) calls.
Proof.
  intros Hrun.
  destruct (fetchVideoMetadata_calls w tok ids tr) as (calls' & Htr & Hcalls & _).
  rewrite Hrun in Htr. simpl in Htr. apply app_inv_head in Htr. by subst.
Qed.

Lemma metadata_call_not_write ids ev path records :
  metadata_call ids ev → ev ≠ EWriteJson path records.
Proof. intros (authorization & chunk & -> & _). discriminate. Qed.

Lemma last_calls_not_write w tok authorization ids calls o path records :
  fetchVideoMetadata w tok ids (run_head w authorization)
  = (run_head w authorization ++ calls, o) →
  last (run_head w authorization ++ calls) ≠ Some (EWriteJson path records).
Proof.
  intros Hmeta Hlast. apply fetchVideoMetadata_trace in Hmeta.
  destruct calls as [|ev calls _] using rev_ind.
  - rewrite app_nil_r in Hlast. unfold run_head in Hlast. simpl in Hlast.
    discriminate.
  - rewrite app_assoc, last_snoc in Hlast. inversion Hlast; subst ev.
    apply Forall_app in Hmeta as [_ Hmeta].
    rewrite Forall_singleton in Hmeta.
    exact (metadata_call_not_write _ _ _ _ Hmeta eq_refl).
Qed.

(** The exit code of a run is 0 or 1, and it is 0 exactly when the last
    event of the run is the write of the output file and that write
    succeeded. *)
Theorem run_exit_code w :
  ((run w).2 = 0%Z ∨ (run w).2 = 1%Z)
  ∧ ((run w).2 = 0%Z ↔
       ∃ filePath records,
         last (run w).1 = Some (EWriteJson filePath records)
         ∧ writeJson w filePath records = Normal ()).
Proof.
  destruct (run_stage_run w)
    as [Henv|e Henv Hmkdir|Hstarted Htoken|tok e Hstarted Htok Hbearer
       |tok authorization Hstarted Htok Hbearer Hnot
       |tok authorization raw calls o Hstarted Htok Hbearer Htransformed Hmeta Ho
       |tok authorization raw calls m e Hstarted Htok Hbearer Htransformed Hmeta Hdir
       |tok authorization raw calls m records filePath Hstarted Htok Hbearer
          Htransformed Hmeta Hdir Hrecords HfilePath];
    try (split; [by right|];
         split; [discriminate|]; intros (p & r & Hlast & _); exfalso).
  - discriminate.
  - discriminate.
  - discriminate.
  - discriminate.
  - unfold run_head in Hlast. discriminate.
  - by eapply last_calls_not_write.
  - rewrite app_assoc, last_snoc in Hlast. discriminate.
  - assert (last (run_head w authorization ++ calls
                    ++ [EEnsureDir (analyticsDir w); EWriteJson filePath records])
            = Some (EWriteJson filePath records)) as Hlast.
    { rewrite app_assoc.
      replace [EEnsureDir (analyticsDir w); EWriteJson filePath records]
        with ([EEnsureDir (analyticsDir w)] ++ [EWriteJson filePath records])
        by done.
      rewrite app_assoc. apply last_snoc. }
    rewrite Hlast.
    destruct (writeJson w filePath records) as [[]|e] eqn:Hwrite.
    + split; [by left|]. split; [|done]. intros _. by exists filePath, records.
    + split; [by right|]. split; [discriminate|].
      intros (p & r & [= <- <-] & Hw). congruence.
Qed.

Lemma run_write_inv w filePath records :
  EWriteJson filePath records ∈ (run w).1 →
  ∃ tok authorization raw calls m,
    started w ∧ token_ok w tok ∧ bearer tok = Normal authorization
    ∧ transformed w authorization raw
    ∧ fetchVideoMetadata w tok (collect_videoIds raw) (run_head w authorization)
      = (run_head w authorization ++ calls, Ret m)
    ∧ normalize raw m = Normal records
    ∧ (run w).1
      = run_head w authorization ++ calls
          ++ [EEnsureDir (analyticsDir w); EWriteJson filePath records].
Proof.
  intros Hin.
  assert (∀ tok authorization ids calls o,
            fetchVideoMetadata w tok ids (run_head w authorization)
            = (run_head w authorization ++ calls, o) →
            EWriteJson filePath records ∉ run_head w authorization ++ calls)
    as Hcalls.
  { intros tok authorization ids calls o Hmeta Hin'.
    apply fetchVideoMetadata_trace in Hmeta.
    apply elem_of_app in Hin' as [Hhead|Hin'].
    - unfold run_head in Hhead.
      repeat (apply elem_of_cons in Hhead as [[=]|Hhead]).
      by apply elem_of_nil in Hhead.
    - eapply Forall_forall in Hmeta; [|exact Hin'].
      exact (metadata_call_not_write _ _ _ _ Hmeta eq_refl). }
  destruct (run_stage_run w)
    as [Henv|e Henv Hmkdir|Hstarted Htoken|tok e Hstarted Htok Hbearer
       |tok authorization Hstarted Htok Hbearer Hnot
       |tok authorization raw calls o Hstarted Htok Hbearer Htransformed Hmeta Ho
       |tok authorization raw calls m e Hstarted Htok Hbearer Htransformed Hmeta Hdir
       |tok authorization raw calls m records' filePath' Hstarted Htok Hbearer
          Htransformed Hmeta Hdir Hrecords HfilePath].
  - by apply elem_of_nil in Hin.
  - apply list_elem_of_singleton in Hin. discriminate.
  - repeat (apply elem_of_cons in Hin as [[=]|Hin]). by apply elem_of_nil in Hin.
  - repeat (apply elem_of_cons in Hin as [[=]|Hin]). by apply elem_of_nil in Hin.
  - unfold run_head in Hin.
    repeat (apply elem_of_cons in Hin as [[=]|Hin]). by apply elem_of_nil in Hin.
  - exfalso. by eapply Hcalls.
  - exfalso. rewrite app_assoc in Hin. apply elem_of_app in Hin as [Hin|Hin].
    + by eapply Hcalls.
    + apply list_elem_of_singleton in Hin. discriminate.
  - rewrite app_assoc in Hin. apply elem_of_app in Hin as [Hin|Hin];
      [exfalso; by eapply Hcalls|].
    apply elem_of_cons in Hin as [[=]|Hin].
    apply list_elem_of_singleton in Hin as [= -> ->].
    by exists tok, authorization, raw, calls, m.
Qed.


End Output.


Section Order.
Context `{NumberOps}.

(** An incomplete environment stops the run before anything is done: when
    one of the three required variables is unset or empty, the run exits
    with code 1 and an empty trace; with a complete environment the first
    event is the creation of the data directory. *)
Theorem run_env_gate w :
  (∀ key, key ∈ REQUIRED_ENV → env_missing w key = true → run w = ([], 1%Z))
  ∧ (env_complete w → ∃ rest, (run w).1 = EEnsureDir "data/analytics" :: rest).
Proof.
  split.
  - intros key Hkey Hmissing.
    assert (¬ env_complete w) as Hnot.
    { intros Hcomplete. rewrite (Hcomplete key Hkey) in Hmissing. done. }
    rewrite (surjective_pairing (run w)).
    destruct (run_stage_run w); [done|..]; exfalso; apply Hnot;
      repeat match goal with
      | Hs : started w |- _ => destruct Hs
      end; assumption.
  - intros Hcomplete.
    destruct (run_stage_run w); try done; unfold run_head; simpl; eauto.
Qed.


End Order.

(** The run without a refresh token. *)
Lemma run_env_gate_witness :
  "YT_REFRESH_TOKEN" ∈ REQUIRED_ENV
  ∧ env_missing envless_world "YT_REFRESH_TOKEN" = true
  ∧ @run fixture_ops envless_world = ([], 1%Z).
Proof.
  assert ("YT_REFRESH_TOKEN" ∈ REQUIRED_ENV) as Hkey
    by (unfold REQUIRED_ENV; repeat constructor).
  split; [exact Hkey|]. split; [reflexivity|].
  exact (proj1 (@run_env_gate fixture_ops envless_world)
           "YT_REFRESH_TOKEN" Hkey eq_refl).
Defined.

(** ** The chunks of the metadata step *)

Section Chunks.
Context `{NumberOps}.

Lemma slice_nonempty {A : Type} (l : list A) i :
  i < length l → slice i (i + chunkSize) l ≠ [].
Proof.
  intros Hi Hnil. apply (f_equal length) in Hnil.
  unfold slice, chunkSize in Hnil. rewrite length_take, length_drop in Hnil.
  simpl in Hnil. lia.
Qed.

Lemma slice_drop {A : Type} (l : list A) i :
  slice i (i + chunkSize) l ++ drop (i + chunkSize) l = drop i l.
Proof.
  unfold slice. replace (i + chunkSize - i) with chunkSize by lia.
  rewrite <- (drop_drop l chunkSize i). apply take_drop.
Qed.

Lemma metadata_loop_chunks w tok ids authorization i result tr :
  bearer tok = Normal authorization →
  ∃ chunks,
    (metadata_loop w tok ids i result tr).1
    = tr ++ ((λ chunk, EFetch (MetadataRequest authorization chunk)) <$> chunks)
    ∧ Forall (λ chunk, chunk ≠ [] ∧ length chunk ≤ chunkSize) chunks
    ∧ concat chunks `prefix_of` drop i ids
    ∧ ∀ m, (metadata_loop w tok ids i result tr).2 = Ret m →
           concat chunks = drop i ids.
Proof.
  funelim (metadata_loop w tok ids i result tr); intros Hbearer.
  - exists []. simpl. rewrite app_nil_r.
    split; [done|]. split; [constructor|]. split; [apply prefix_nil|].
    intros _ _. symmetry. apply drop_ge. lia.
  - destruct (H0 authorization Hbearer) as (chunks & Htr & Hchunks & Hprefix & Hret).
    pose proof (fetchMetadataChunk_run w tok (slice i (i + chunkSize) ids)
                  result tr) as Hrun.
    rewrite Hbearer, Heq in Hrun. simpl in Hrun. subst tr'.
    exists (slice i (i + chunkSize) ids :: chunks).
    rewrite Htr, <- app_assoc. simpl.
    split; [done|].
    split; [constructor; [split; [by apply slice_nonempty | apply slice_length]
                         | done]|].
    rewrite <- (slice_drop ids i).
    split; [by apply prefix_app|].
    intros m Hm. f_equal. by apply (Hret m).
  - pose proof (fetchMetadataChunk_run w tok (slice i (i + chunkSize) ids)
                  result tr) as Hrun.
    rewrite Hbearer, Heq in Hrun. simpl in Hrun. subst tr'.
    exists [slice i (i + chunkSize) ids]. simpl. rewrite app_nil_r.
    split; [done|].
    split; [constructor; [split; [by apply slice_nonempty | apply slice_length]
                         | constructor]|].
    split; [rewrite <- (slice_drop ids i); by apply prefix_app_r | done].
  - pose proof (fetchMetadataChunk_run w tok (slice i (i + chunkSize) ids)
                  result tr) as Hrun.
    rewrite Hbearer, Heq in Hrun. simpl in Hrun. subst tr'.
    exists [slice i (i + chunkSize) ids]. simpl. rewrite app_nil_r.
    split; [done|].
    split; [constructor; [split; [by apply slice_nonempty | apply slice_length]
                         | constructor]|].
    split; [rewrite <- (slice_drop ids i); by apply prefix_app_r | done].
Qed.

(** The metadata step asks for every id exactly once and in order: the
    chunks of its requests are non-empty, hold at most 50 ids each, and
    put end to end they are a prefix of the id list, the whole list when
    the step returns. Every request carries the same Authorization
    header. *)
Theorem metadata_chunks_partition w tok ids authorization tr :
  bearer tok = Normal authorization →
  ∃ chunks,
    (fetchVideoMetadata w tok ids tr).1
    = tr ++ ((λ chunk, EFetch (MetadataRequest authorization chunk)) <$> chunks)
    ∧ Forall (λ chunk, chunk ≠ [] ∧ length chunk ≤ chunkSize) chunks
    ∧ concat chunks `prefix_of` ids
    ∧ ∀ m, (fetchVideoMetadata w tok ids tr).2 = Ret m → concat chunks = ids.
Proof.
  intros Hbearer. unfold fetchVideoMetadata. case_decide as Hlen.
  - exists []. simpl. rewrite app_nil_r.
    split; [done|]. split; [constructor|]. split; [apply prefix_nil|].
    intros _ _. symmetry. by apply nil_length_inv.
  - destruct (metadata_loop_chunks w tok ids authorization 0 ∅ tr Hbearer)
      as (chunks & Htr & Hchunks & Hprefix & Hret).
    rewrite drop_0 in Hprefix, Hret. by exists chunks.
Qed.

End Chunks.

(** A hundred and twenty ids go out as chunks of 50, 50 and 20. *)
Lemma metadata_chunks_partition_witness :
  @bearer fixture_ops (VStr "tok") = Normal "Bearer tok"
  ∧ ∃ chunks,
      (@fetchVideoMetadata fixture_ops example_world (VStr "tok") many_ids []).1
      = (λ chunk, EFetch (MetadataRequest "Bearer tok" chunk)) <$> chunks
      ∧ length <$> chunks = [50; 50; 20]
      ∧ concat chunks = many_ids.
Proof.
  split; [reflexivity|].
  destruct (@metadata_chunks_partition fixture_ops example_world (VStr "tok")
              many_ids "Bearer tok" [] eq_refl)
    as (chunks & Htr & _ & _ & Hret).
  exists chunks. split; [exact Htr|].
  assert (concat chunks = many_ids) as Hconcat.
  { assert (@metadata_endpoint_ok fixture_ops example_world (VStr "tok")) as Hok.
    { exists "Bearer tok". split; [reflexivity|]. intros chunk.
      eexists _, _. repeat split. intros result. eexists. reflexivity. }
    destruct (@fetchVideoMetadata_total fixture_ops example_world (VStr "tok")
                many_ids [] Hok) as [m Hm].
    exact (Hret m Hm). }
  split; [|exact Hconcat].
  assert ((λ ev, match ev with
                 | EFetch (MetadataRequest _ chunk) => length chunk
                 | _ => 0
                 end)
            <$> (@fetchVideoMetadata fixture_ops example_world (VStr "tok")
                   many_ids []).1 = [50; 50; 20]) as Hlens
    by (vm_compute; reflexivity).
  rewrite Htr, app_nil_l, <- list_fmap_compose in Hlens. exact Hlens.
Defined.

(** ** The metadata map *)

Lemma coalesce_defined v d : d ≠ VUndefined → coalesce v d ≠ VUndefined.
Proof. unfold coalesce. by destruct v. Qed.

Lemma add_item_wf result item :
  map_Forall (λ _ meta, metadata_wf meta) result →
  map_Forall (λ _ meta, metadata_wf meta) (add_item result item).
Proof.
  intros Hresult. unfold add_item.
  destruct (truthy (get_prop_opt item "id")); simpl; [|done].
  destruct (get_prop_opt item "id") as [| | | |s| |]; try done.
  apply map_Forall_insert_2; [|done].
  unfold metadata_wf. simpl.
  split.
  { match goal with
    | |- context [if is_array ?t then _ else _] =>
        destruct (is_array t) eqn:Harray
    end; [exact Harray | reflexivity]. }
  repeat split; by apply coalesce_defined.
Qed.

Lemma add_items_wf result payload m :
  add_items result payload = Normal m →
  map_Forall (λ _ meta, metadata_wf meta) result →
  map_Forall (λ _ meta, metadata_wf meta) m.
Proof.
  unfold add_items. intros Hm Hresult. bind_inv Hm.
  destruct a as [| | | | |items|]; inversion Hm; subst; try done.
  clear Hm Ha. revert result Hresult.
  induction items as [|item items IH]; intros result Hresult; simpl; [done|].
  by apply IH, add_item_wf.
Qed.

Section MetadataMap.
Context `{NumberOps}.

Lemma metadata_loop_wf w tok ids i result tr m :
  (metadata_loop w tok ids i result tr).2 = Ret m →
  map_Forall (λ _ meta, metadata_wf meta) result →
  map_Forall (λ _ meta, metadata_wf meta) m.
Proof.
  funelim (metadata_loop w tok ids i result tr); simpl.
  - by intros [= <-].
  - intros Hm Hresult. apply H0; [done|].
    apply fetchMetadataChunk_ret in Heq
      as (authorization & resp & payload & _ & _ & _ & _ & _ & Hitems).
    by eapply add_items_wf.
  - discriminate.
  - discriminate.
Qed.

Lemma fetchVideoMetadata_wf w tok ids tr m id meta :
  (fetchVideoMetadata w tok ids tr).2 = Ret m → m !! id = Some meta →
  id ≠ "" ∧ metadata_wf meta.
Proof.
  intros Hm Hid. split.
  - intros ->. apply fetchVideoMetadata_blank in Hm. congruence.
  - revert Hm. unfold fetchVideoMetadata. case_decide.
    + intros [= <-]. by rewrite lookup_empty in Hid.
    + intros Hm. eapply (metadata_loop_wf w tok ids 0 ∅ tr m Hm); [|exact Hid].
      apply map_Forall_empty.
Qed.


End MetadataMap.


(** ** Order of the normalized records *)

Lemma normalize_filter_fmap (raw : list MetricsRow) m :
  filter (λ v, truthy v)
    ((λ entry, if dropped m entry then VNull
               else standard_input (m !! videoId entry) entry) <$> raw)
  = (λ entry, standard_input (m !! videoId entry) entry)
      <$> filter (λ entry, dropped m entry = false) raw.
Proof.
  induction raw as [|entry raw IH]; [done|].
  rewrite fmap_cons, !filter_cons.
  destruct (dropped m entry) eqn:Hdropped.
  - rewrite decide_False by (by intros []). rewrite decide_False by done.
    exact IH.
  - rewrite decide_True by done. rewrite decide_True by done.
    by rewrite fmap_cons, IH.
Qed.

(** Normalization keeps the order of the metrics rows: its output is the
    standard record of each row that is not filtered out, in the order of
    the rows, so it is never longer than the row list and the post ids of
    the output are the video ids of the kept rows, in order. *)
Theorem normalize_keeps_order raw m :
  ∃ out,
    normalize raw m = Normal out
    ∧ out = (λ entry, standard_input (m !! videoId entry) entry)
              <$> filter (λ entry, dropped m entry = false) raw
    ∧ (λ rec, get_prop_opt rec "post_id") <$> out
      = (λ entry, VStr (videoId entry))
          <$> filter (λ entry, dropped m entry = false) raw
    ∧ length out ≤ length raw.
Proof.
  exists ((λ entry, standard_input (m !! videoId entry) entry)
            <$> filter (λ entry, dropped m entry = false) raw).
  split.
  { rewrite normalize_run. f_equal. exact (normalize_filter_fmap raw m). }
  split; [done|]. split.
  - by rewrite <- list_fmap_compose.
  - rewrite length_fmap. apply length_filter.
Qed.

(** ** The rows of the transform *)

Section Rows.
Context `{NumberOps}.

Lemma getString_inv headerIndex row key s :
  getString headerIndex row key = Normal s →
  match headerIndex !! key with
  | None => s = ""
  | Some idx =>
      ∃ cell,
        get_index row idx = Normal cell
        ∧ match cell with
          | VStr s' => s = s'
          | VUndefined | VNull => s = ""
          | _ => ToString cell = Normal s
          end
  end.
Proof.
  unfold getString. destruct (headerIndex !! key) as [idx|]; [|by intros [= <-]].
  intros Hs. bind_inv Hs. exists a. split; [done|].
  destruct a; simpl in Hs; try done; by inversion Hs.
Qed.

(** The transform returns one row for each input row, in the order of the
    input. The video id of a row is the cell of the video column when
    that cell is a string, the empty string when the cell is missing or
    null or the table has no video column, and the cell converted to a
    string otherwise. *)
Theorem transformRows_one_per_row columnHeaders rs out :
  transformRows columnHeaders (VArr rs) = Normal out →
  length out = length rs
  ∧ ∀ i row, rs !! i = Some row →
      ∃ r headerIndex,
        out !! i = Some r
        ∧ build_headerIndex (default_param columnHeaders (VArr []))
          = Normal headerIndex
        ∧ match headerIndex !! "video" with
          | None => videoId r = ""
          | Some idx =>
              ∃ cell,
                get_index row idx = Normal cell
                ∧ match cell with
                  | VStr s => videoId r = s
                  | VUndefined | VNull => videoId r = ""
                  | _ => ToString cell = Normal (videoId r)
                  end
          end.
Proof.
  intros Hout.
  assert (length out = length rs) as Hlen.
  { revert Hout. unfold transformRows. simpl.
    destruct rs as [|row0 rs]; [by intros [= <-]|].
    intros Hout. bind_inv Hout. by apply mapC_length in Hout. }
  split; [exact Hlen|]. intros i row Hrow.
  destruct (out !! i) as [r|] eqn:Hr.
  2: { apply lookup_ge_None in Hr. apply lookup_lt_Some in Hrow. lia. }
  destruct (transformRows_inv _ _ _ _ _ Hout Hr)
    as (headerIndex & rs' & row' & Hindex & [= <-] & Hrow' & Hrun).
  rewrite Hrow in Hrow'. inversion Hrow'; subst row'.
  exists r, headerIndex. split; [done|]. split; [done|].
  apply transformRow_inv in Hrun as (Hvideo & _).
  by apply getString_inv in Hvideo.
Qed.

End Rows.

(** The example table: four rows in, four rows out, the second without a
    video id. *)
Lemma transformRows_one_per_row_witness :
  ∃ out,
    @transformRows fixture_ops scenario_headers example_rows = Normal out
    ∧ length out = 4
    ∧ videoId <$> out = ["abc123"; ""; "prv"; "gone"].
Proof.
  destruct (@transformRows fixture_ops scenario_headers example_rows)
    as [out|] eqn:Hout; [|vm_compute in Hout; discriminate].
  exists out. split; [reflexivity|].
  destruct (@transformRows_one_per_row fixture_ops scenario_headers _ out Hout)
    as [Hlen _].
  split; [exact Hlen|].
  vm_compute in Hout. inversion Hout. reflexivity.
Defined.

(** ** The records of the output file *)

Section Records.
Context `{NumberOps}.

Lemma is_array_coalesce tags :
  is_array tags = true → is_array (coalesce tags (VArr [])) = true.
Proof. by destruct tags. Qed.

(** Every record of the output file has the eight fields in order:
    platform "youtube", post_id a string, permalink the watch URL of that
    id, created_at and text never [undefined], hashtags always an array,
    metrics the seven numbers of the row, with watch_time_seconds the
    product of watch_time_minutes and 60, and extra either empty or
    holding only a truthy title. *)
Theorem written_record_shape w filePath records rec :
  EWriteJson filePath records ∈ (run w).1 → rec ∈ records →
  ∃ id created_at text hashtags mt extra,
    rec = VObj [("platform", VStr "youtube");
                ("post_id", VStr id);
                ("permalink", VStr ("https://www.youtube.com/watch?v=" +:+ id));
                ("created_at", created_at);
                ("text", text);
                ("hashtags", hashtags);
                ("metrics", metrics_value mt);
                ("extra", extra)]
    ∧ created_at ≠ VUndefined ∧ text ≠ VUndefined
    ∧ is_array hashtags = true
    ∧ watch_time_seconds mt = (watch_time_minutes mt * 60)%float
    ∧ (extra = VObj [] ∨ ∃ t, extra = VObj [("title", t)] ∧ truthy t = true).
Proof.
  intros Hwrite Hrec.
  destruct (run_write_inv w filePath records Hwrite)
    as (tok & authorization & raw & calls & m & _ & _ & _ & Htransformed
        & Hmeta & Hrecords & _).
  destruct (normalize_elem raw m records rec Hrecords Hrec)
    as (entry & Hentry & -> & _).
  exists (videoId entry),
    (coalesce (meta_field (m !! videoId entry) publishedAt) VNull),
    (coalesce (meta_field (m !! videoId entry) description) VNull),
    (coalesce (meta_field (m !! videoId entry) tags) (VArr [])),
    (metrics entry),
    (if truthy (meta_field (m !! videoId entry) title)
     then VObj [("title", meta_field (m !! videoId entry) title)]
     else VObj []).
  split; [reflexivity|].
  split; [by apply coalesce_defined|]. split; [by apply coalesce_defined|].
  split.
  { destruct (m !! videoId entry) as [meta|] eqn:Hlookup; [|done].
    simpl. apply is_array_coalesce.
    assert ((fetchVideoMetadata w tok (collect_videoIds raw)
               (run_head w authorization)).2 = Ret m) as Hm
      by (by rewrite Hmeta).
    by destruct (fetchVideoMetadata_wf _ _ _ _ _ _ _ Hm Hlookup)
      as (_ & Htags & _). }
  split.
  { destruct Htransformed as (resp & payload & columnHeaders & rows & _ & _ & _
                              & _ & _ & Hraw).
    apply list_elem_of_lookup in Hentry as [i Hi].
    destruct (transformRows_inv _ _ _ _ _ Hraw Hi)
      as (headerIndex & rs & row & _ & _ & _ & Hrun).
    by apply transformRow_inv in Hrun as (_ & _ & _ & _ & _ & _ & _ & Hsec). }
  destruct (truthy (meta_field (m !! videoId entry) title)) eqn:Htitle;
    [right; eauto | by left].
Qed.

End Records.

(** A record of the example run. *)
Lemma written_record_shape_witness :
  ∃ filePath records rec id,
    EWriteJson filePath records ∈ (@run fixture_ops example_world).1
    ∧ rec ∈ records
    ∧ get_prop_opt rec "post_id" = VStr id.
Proof.
  assert (∃ filePath records rec,
            (@run fixture_ops example_world).1 !! 5
            = Some (EWriteJson filePath records) ∧ records !! 0 = Some rec)
    as (filePath & records & rec & Hlookup & Hrec)
    by (eexists _, _, _; split; vm_compute; reflexivity).
  assert (EWriteJson filePath records ∈ (@run fixture_ops example_world).1)
    as Hin by (apply list_elem_of_lookup; by exists 5).
  assert (rec ∈ records) as Hrec' by (apply list_elem_of_lookup; by exists 0).
  destruct (@written_record_shape fixture_ops example_world filePath records rec
              Hin Hrec')
    as (id & created_at & text & hashtags & mt & extra & Hshape & _).
  exists filePath, records, rec, id.
  split; [exact Hin|]. split; [exact Hrec'|]. rewrite Hshape. reflexivity.
Defined.

(** ** The authorization helper: command-line options *)

Section HelperArgs.
Import Helper.

Lemma split_on_nonempty sep s : split_on sep s ≠ [].
Proof.
  destruct s as [|c rest]; cbn [split_on]; [done|].
  case_decide; [done|]. by destruct (split_on sep rest).
Qed.

Lemma split_on_no_equals s :
  no_equals s = true → split_on equals_sign s = [s].
Proof.
  induction s as [|c rest IH]; cbn [split_on no_equals]; [done|].
  intros [Hc Hrest]%andb_true_iff.
  apply negb_true_iff, bool_decide_eq_false in Hc.
  rewrite decide_False by done. by rewrite (IH Hrest).
Qed.

Lemma split_on_equals a b :
  no_equals a = true →
  split_on equals_sign (a +:+ String equals_sign b)
  = a :: split_on equals_sign b.
Proof.
  induction a as [|c rest IH].
  - intros _. change ("" +:+ String equals_sign b) with (String equals_sign b).
    cbn [split_on]. by rewrite decide_True.
  - change (String c rest +:+ String equals_sign b)
      with (String c (rest +:+ String equals_sign b)).
    cbn [split_on no_equals].
    intros [Hc Hrest]%andb_true_iff.
    apply negb_true_iff, bool_decide_eq_false in Hc.
    rewrite decide_False by done. by rewrite (IH Hrest).
Qed.

Lemma option_parts name tail :
  no_equals name = true →
  String.prefix "--" ("--" +:+ name +:+ tail) = true
  ∧ String.prefix "--" ("--" +:+ name) = true
  ∧ strip_dashes ("--" +:+ name) = name
  ∧ no_equals ("--" +:+ name) = true.
Proof.
  intros Hname.
  change ("--" +:+ name +:+ tail) with (String dash (String dash (name +:+ tail))).
  change ("--" +:+ name) with (String dash (String dash name)).
  split; [simpl; by destruct (name +:+ tail)|].
  split; [simpl; by destruct name|]. split; [|exact Hname].
  cbn [strip_dashes]. by rewrite decide_True.
Qed.

Lemma parse_from_key_value name value rest m :
  no_equals name = true →
  parse_from (("--" +:+ name +:+ "=" +:+ value) :: rest) m
  = parse_from rest
      (assign name (ArgStr (default "" (split_on equals_sign value !! 0))) m).
Proof.
  intros Hname.
  destruct (option_parts name ("=" +:+ value) Hname)
    as (Hprefix & _ & Hstrip & Hdashes).
  cbn [parse_from]. rewrite Hprefix.
  change ("--" +:+ name +:+ "=" +:+ value)
    with (("--" +:+ name) +:+ String equals_sign value).
  rewrite (split_on_equals _ value Hdashes). cbn [lookup list_lookup default].
  unfold id. rewrite Hstrip.
  destruct (split_on equals_sign value) as [|piece pieces] eqn:Hsplit;
    [by apply split_on_nonempty in Hsplit | done].
Qed.

(** An option written [--name=value] stores under [name] the text of
    [value] up to its first [=], if it has one: what follows a second [=]
    of the argument is lost. The next argument is not consumed. *)
Theorem helper_option_with_equals name value rest m :
  no_equals name = true → name ≠ "__proto__" → no_equals value = true →
  parse_from (("--" +:+ name +:+ "=" +:+ value) :: rest) m
  = parse_from rest (<[name := ArgStr value]> m)
  ∧ ∀ more,
      parse_from (("--" +:+ name +:+ "=" +:+ value +:+ "=" +:+ more) :: rest) m
      = parse_from rest (<[name := ArgStr value]> m).
Proof.
  intros Hname Hproto Hvalue. split.
  - rewrite (parse_from_key_value name value rest m Hname).
    rewrite (split_on_no_equals value Hvalue). simpl.
    unfold assign. by rewrite decide_False.
  - intros more.
    rewrite (parse_from_key_value name (value +:+ "=" +:+ more) rest m Hname).
    change (value +:+ "=" +:+ more) with (value +:+ String equals_sign more).
    rewrite (split_on_equals value more Hvalue). simpl.
    unfold assign. by rewrite decide_False.
Qed.

Lemma parse_from_separate name rest m :
  no_equals name = true →
  parse_from (("--" +:+ name) :: rest) m
  = match rest with
    | next :: rest' => parse_from rest' (assign name (ArgStr next) m)
    | [] => assign name ArgTrue m
    end.
Proof.
  intros Hname.
  destruct (option_parts name "" Hname) as (_ & Hprefix & Hstrip & Hdashes).
  cbn [parse_from].
  rewrite Hprefix, (split_on_no_equals _ Hdashes).
  cbn [lookup list_lookup default]. unfold id. by rewrite Hstrip.
Qed.

(** An option written [--name] without [=] takes the next argument as its
    value, whatever that argument is, and skips it; at the end of the
    command line it is stored as [true]. When the value has no [=], the
    two ways of writing an option agree. *)
Theorem helper_option_separate name next rest m :
  no_equals name = true → name ≠ "__proto__" →
  parse_from (("--" +:+ name) :: next :: rest) m
  = parse_from rest (<[name := ArgStr next]> m)
  ∧ parse_from [("--" +:+ name)] m = <[name := ArgTrue]> m
  ∧ (no_equals next = true →
     parse_from (("--" +:+ name +:+ "=" +:+ next) :: rest) m
     = parse_from (("--" +:+ name) :: next :: rest) m).
Proof.
  intros Hname Hproto.
  rewrite !(parse_from_separate name _ m Hname).
  unfold assign. rewrite !decide_False by done.
  split; [done|]. split; [done|].
  intros Hnext. rewrite (parse_from_key_value name next rest m Hname).
  rewrite (split_on_no_equals next Hnext). simpl.
  unfold assign. by rewrite decide_False.
Qed.

End HelperArgs.

(** The redirect URI of the README, and one with a query. *)
Lemma helper_option_with_equals_witness :
  Helper.parseArgs ["node"; "script"; "--code=abc"]
  = {["code" := Helper.ArgStr "abc"]}
  ∧ Helper.parseArgs ["node"; "script"; "--redirect-uri=http://h/cb?x=1"]
    = {["redirect-uri" := Helper.ArgStr "http://h/cb?x"]}.
Proof.
  destruct (helper_option_with_equals "code" "abc" [] ∅
              eq_refl ltac:(discriminate) eq_refl) as [Hplain _].
  destruct (helper_option_with_equals "redirect-uri" "http://h/cb?x" [] ∅
              eq_refl ltac:(discriminate) eq_refl) as [_ Hmore].
  split; [exact Hplain | exact (Hmore "1")].
Defined.

(** An option that swallows the option after it. *)
Lemma helper_option_separate_witness :
  Helper.parseArgs ["node"; "script"; "--code"; "--redirect-uri=x"]
  = {["code" := Helper.ArgStr "--redirect-uri=x"]}.
Proof.
  exact (proj1 (helper_option_separate "code" "--redirect-uri=x" [] ∅
                  eq_refl ltac:(discriminate))).
Defined.

(** ** The authorization helper: the two ways to run it *)

Section HelperRun.
Import Helper.

(** Case analysis on the membership [H] in a list that is written out. *)
Ltac elem_cases H :=
  repeat (apply elem_of_cons in H as [H|H]);
  try discriminate H; try (by apply elem_of_nil in H).

Ltac elem_here := solve [repeat first [left | right]].

Ltac pick :=
  first [ by left | by right; left | by do 2 right; left | by do 3 right
        | by do 2 right ].

(** The five parts of the outcome of a request, for a handling that is
    written out. *)
Ltac outcome_case :=
  split_and!;
  [ intros status body Hin; elem_cases Hin; injection Hin as -> ->; pick
  | split;
    [ intros Hin; elem_cases Hin; pick
    | intros [Hend|[Hend|Hend]]; try discriminate Hend; elem_here ]
  | intros Hin; first [reflexivity | elem_cases Hin]
  | intros t Hin; elem_cases Hin; injection Hin as ->;
    split; first [assumption | reflexivity]
  | intros Hend; first [discriminate Hend | eexists; elem_here] ].

Lemma truthy_get_prop payload key t :
  get_prop payload key = Normal t → truthy t = true →
  get_prop_opt payload key = t.
Proof.
  destruct payload; simpl; intros [= <-]; done.
Qed.

Lemma exchangeCode_inv w req events result :
  exchangeCode w req = (events, result) →
  events = [EFetch req]
  ∧ match result with
    | inr payload =>
        ∃ resp, token_endpoint w req = Normal resp ∧ ok resp = true
                ∧ json resp = Normal payload
                ∧ truthy (get_prop_opt payload "refresh_token") = true
    | inl _ => True
    end.
Proof.
  unfold exchangeCode. intros [= <- <-]. split; [done|].
  destruct (token_endpoint w req) as [resp|e]; [|done].
  destruct (ok resp) eqn:Hok; simpl; [|done].
  destruct (json resp) as [payload|e] eqn:Hjson; [|done].
  destruct (get_prop payload "refresh_token") as [t|e] eqn:Hget; [|done].
  destruct (truthy t) eqn:Ht; simpl; [|done].
  exists resp. split_and!; try done.
  by rewrite (truthy_get_prop _ _ _ Hget Ht).
Qed.

Lemma env_complete_filter w :
  (∀ key, key ∈ REQUIRED → env_missing w key = false) ↔
  filter (λ key, env_missing w key) REQUIRED = [].
Proof.
  split.
  - intros Hall. destruct (filter _ REQUIRED) as [|key l] eqn:Hfilter; [done|].
    assert (key ∈ filter (λ key, env_missing w key) REQUIRED) as Hin
      by (rewrite Hfilter; left).
    apply list_elem_of_filter in Hin as [Hmissing Hin].
    rewrite (Hall key Hin) in Hmissing. done.
  - intros Hnil key Hin. destruct (env_missing w key) eqn:Hmissing; [|done].
    assert (key ∈ filter (λ key, env_missing w key) REQUIRED) as Hin'
      by (apply list_elem_of_filter; split; [by rewrite Hmissing | done]).
    rewrite Hnil in Hin'. by apply elem_of_nil in Hin'.
Qed.


(** The helper runs in exactly one of three ways. It makes a token request
    from [main] exactly when both client settings are present and the
    [code] option is truthy; it starts the local server, on the chosen
    port, exactly when they are present and the option is absent or empty;
    and with a setting missing it does neither and ends with exit code 1. *)
Theorem helper_main_modes w :
  ((∃ req, EFetch req ∈ (main w).1) ↔ env_complete w ∧ code_given w = true)
  ∧ (∀ port, EListen port ∈ (main w).1 ↔
             env_complete w ∧ code_given w = false ∧ port = random_port w)
  ∧ ((main w).2 = Listening (random_port w) (callback_uri (random_port w))
     ↔ env_complete w ∧ code_given w = false)
  ∧ (¬ env_complete w → ∃ msg, main w = ([EError (Message msg)], Exited 1)).
Proof.
  unfold env_complete, code_given. pose proof (env_complete_filter w) as Hcomplete. unfold main.
  destruct (filter (λ key, env_missing w key) REQUIRED) as [|key l] eqn:Hfilter.
  - assert (∀ key, key ∈ REQUIRED → env_missing w key = false) as Hc
      by (by apply Hcomplete).
    clear Hcomplete. rewrite decide_True by done. cbv zeta.
    assert (∃ code, parseArgs (argv w) !! "code" = Some code
                    ∧ arg_truthy (Some code) = true
            ∨ arg_truthy (parseArgs (argv w) !! "code") = false) as [code Hcode].
    { destruct (parseArgs (argv w) !! "code") as [code|]; [|by exists ArgTrue; right].
      exists code. destruct (arg_truthy (Some code)); eauto. }
    destruct Hcode as [[Hcode Htruthy]|Hfalsy].
    + rewrite Hcode, Htruthy.
      destruct (exchangeCode w _) as [events result] eqn:Hexchange.
      apply exchangeCode_inv in Hexchange as [-> _].
      split_and!.
      * split; [by intros _|]. intros _. eexists.
        destruct result; cbn [fst]; right; left.
      * intros port. split; [|by intros (_ & ? & _)].
        intros Hin. exfalso.
        destruct result; cbn [fst app token_lines] in Hin; elem_cases Hin.
      * split; [|by intros [_ ?]]. by destruct result.
      * intros Hn. by destruct Hn.
    + assert (match parseArgs (argv w) !! "code" with
              | Some code => arg_truthy (Some code) = false
              | None => True
              end) as Hcode by (by destruct (parseArgs (argv w) !! "code")).
      rewrite Hfalsy.
      clear code. destruct (parseArgs (argv w) !! "code") as [code|]; [rewrite Hcode|].
      all: split_and!;
        [ split; [|by intros [_ ?]]; intros [req Hin]; exfalso;
          cbn [fst] in Hin; elem_cases Hin
        | intros port; split;
          [ intros Hin; cbn [fst] in Hin; split_and!; [exact Hc | done |];
            elem_cases Hin; congruence
          | intros (_ & _ & ->); cbn [fst]; elem_here ]
        | split; [by intros _ | done]
        | intros Hn; by destruct Hn ].
  - assert (¬ ∀ key, key ∈ REQUIRED → env_missing w key = false) as Hn
      by (by intros Hc%Hcomplete).
    rewrite decide_False by done. split_and!.
    + split; [|by intros [? _]]. intros [req Hin]. exfalso.
      cbn [fst] in Hin. elem_cases Hin.
    + intros port. split; [|by intros [? _]]. intros Hin. exfalso.
      cbn [fst] in Hin. elem_cases Hin.
    + split; [done | by intros [? _]].
    + intros _. by eexists.
Qed.

(** A token request of the request handler is made only for a request to
    the callback path that carries no error and a code that is not empty;
    it sends that code with the redirect URI of the server's own port, is
    the first thing the handler does, and the server is closed at the
    end of the handling, whether the exchange succeeded or not. *)
Theorem helper_callback_exchange w port url events ending req :
  handle_request w port url = (events, ending) → EFetch req ∈ events →
  ∃ u parsed,
    url = Some u
    ∧ parse_url w u ("http://127.0.0.1:" +:+ pretty port) = Normal parsed
    ∧ pathname parsed = "/oauth2callback"
    ∧ (query_error parsed = None ∨ query_error parsed = Some "")
    ∧ query_code parsed = Some (rq_code req) ∧ rq_code req ≠ ""
    ∧ rq_redirect_uri req = callback_uri port
    ∧ rq_client_id req = env w !! "YT_CLIENT_ID"
    ∧ rq_client_secret req = env w !! "YT_CLIENT_SECRET"
    ∧ head events = Some (EFetch req) ∧ last events = Some EClose
    ∧ (ending = Closed 0 ∨ ending = Closed 1).
Proof.
  unfold handle_request. intros Hrun Hin.
  destruct url as [u|]; [|exfalso; injection Hrun as <- <-; elem_cases Hin].
  destruct (bool_decide (u = ""));
    [exfalso; injection Hrun as <- <-; elem_cases Hin|].
  destruct (parse_url w u _) as [parsed|e] eqn:Hparse;
    [|exfalso; injection Hrun as <- <-; elem_cases Hin].
  destruct (bool_decide (pathname parsed = "/oauth2callback")) eqn:Hpath;
    cbn [negb] in Hrun.
  2: { exfalso. injection Hrun as <- <-. elem_cases Hin. }
  apply bool_decide_eq_true in Hpath.
  assert (query_error parsed = None ∨ query_error parsed = Some ""
          ∨ ∃ c msg, query_error parsed = Some (String c msg)) as Herror.
  { destruct (query_error parsed) as [[|c msg]|]; eauto. }
  destruct Herror as [Herror|[Herror|(c & msg & Herror)]];
    rewrite Herror in Hrun.
  3: { exfalso. injection Hrun as <- <-. elem_cases Hin. }
  all: destruct (query_code parsed) as [[|c rest]|] eqn:Hcode.
  all: try (exfalso; injection Hrun as <- <-; elem_cases Hin).
  all: destruct (exchangeCode w _) as [evs result] eqn:Hexchange.
  all: apply exchangeCode_inv in Hexchange as [-> _].
  all: exists u, parsed.
  all: destruct result as [err|tokens]; injection Hrun as <- <-.
  all: cbn [app token_lines] in Hin.
  all: apply elem_of_cons in Hin as [Hin|Hin]; [|exfalso; elem_cases Hin].
  all: injection Hin as ->; cbn [rq_code rq_redirect_uri rq_client_id rq_client_secret].
  all: split_and!; try done; eauto.
Qed.

(** What a request to the local server leads to. Every response the
    handler sends fixes how the handling ends: 404 leaves the server
    listening, 400 ends the process at once with exit code 1, 200 closes
    the server with exit code 0 and 500 closes it with exit code 1. The
    server is closed exactly when the request was a callback, and a
    refresh token is logged exactly when the handling ends with exit code
    0, and then it is a truthy value. *)
Theorem helper_callback_outcome w port url events ending :
  handle_request w port url = (events, ending) →
  (∀ status body, ERespond status body ∈ events →
     (status = 404%nat ∧ ending = StillListening)
     ∨ (status = 400%nat ∧ ending = ExitedNow 1)
     ∨ (status = 200%nat ∧ ending = Closed 0)
     ∨ (status = 500%nat ∧ ending = Closed 1))
  ∧ (EClose ∈ events ↔ ending = ExitedNow 1 ∨ ending = Closed 0 ∨ ending = Closed 1)
  ∧ (EClose ∈ events → last events = Some EClose)
  ∧ (∀ t, ELogValue t ∈ events → truthy t = true ∧ ending = Closed 0)
  ∧ (ending = Closed 0 → ∃ t, ELogValue t ∈ events).
Proof.
  unfold handle_request. intros Hrun.
  destruct url as [u|]; [|injection Hrun as <- <-; outcome_case].
  destruct (bool_decide (u = "")); [injection Hrun as <- <-; outcome_case|].
  destruct (parse_url w u _) as [parsed|e] eqn:Hparse;
    [|injection Hrun as <- <-; outcome_case].
  destruct (bool_decide (pathname parsed = "/oauth2callback")) eqn:Hpath;
    cbn [negb] in Hrun.
  2: { injection Hrun as <- <-. outcome_case. }
  destruct (query_error parsed) as [[|c msg]|] eqn:Herror.
  2: { injection Hrun as <- <-. outcome_case. }
  all: destruct (query_code parsed) as [[|c rest]|] eqn:Hcode.
  all: try (injection Hrun as <- <-; outcome_case).
  all: destruct (exchangeCode w _) as [evs result] eqn:Hexchange.
  all: apply exchangeCode_inv in Hexchange as [-> Hresult].
  all: destruct result as [err|tokens]; injection Hrun as <- <-.
  all: try destruct Hresult as (resp & _ & _ & _ & Ht).
  all: cbn [app token_lines]; outcome_case.
Qed.

End HelperRun.


(** The callback of an approved authorization. *)
Lemma helper_callback_exchange_witness :
  ∃ req, Helper.rq_code req = "4/0abc"
         ∧ Helper.rq_redirect_uri req = "http://127.0.0.1:50000/oauth2callback".
Proof.
  pose (req := {| Helper.rq_client_id := Some "id";
                  Helper.rq_client_secret := Some "secret";
                  Helper.rq_code := "4/0abc";
                  Helper.rq_redirect_uri := Helper.callback_uri 50000 |}).
  destruct (helper_callback_exchange Helper.example_world 50000
              (Some "/oauth2callback?code=4/0abc")
              (Helper.EFetch req
               :: Helper.ERespond 200 "Authorization complete. You can close this window."
               :: Helper.token_lines (VObj [("refresh_token", VStr "1//r")])
               ++ [Helper.EClose])
              (Helper.Closed 0) req
              ltac:(vm_compute; reflexivity) ltac:(left))
    as (u & parsed & _ & _ & _ & _ & _ & _ & Huri & _).
  exists req. split; [reflexivity|]. rewrite Huri. vm_compute. reflexivity.
Defined.

(** A refused authorization: the error wins over the code that came with
    it, no token request is made and the process exits with code 1. *)
Lemma helper_callback_outcome_witness :
  Helper.handle_request Helper.example_world 50000
    (Some "/oauth2callback?error=access_denied&code=4/0abc")
  = ([Helper.ERespond 400 "Authorization failed. You can close this window.";
      Helper.EError (Helper.Message "Authorization error: access_denied");
      Helper.EClose],
     Helper.ExitedNow 1)
  ∧ last [Helper.ERespond 400 "Authorization failed. You can close this window.";
          Helper.EError (Helper.Message "Authorization error: access_denied");
          Helper.EClose]
    = Some Helper.EClose.
Proof.
  assert (Helper.handle_request Helper.example_world 50000
            (Some "/oauth2callback?error=access_denied&code=4/0abc")
          = ([Helper.ERespond 400 "Authorization failed. You can close this window.";
              Helper.EError (Helper.Message "Authorization error: access_denied");
              Helper.EClose],
             Helper.ExitedNow 1)) as Hrun by (vm_compute; reflexivity).
  split; [exact Hrun|].
  destruct (helper_callback_outcome _ _ _ _ _ Hrun) as (_ & _ & Hlast & _).
  apply Hlast. do 2 right. left.
Defined.
